(** * imap-email-py: the vector-index / metadata consistency engine

    A shallow embedding of [embedding.py], [search.py] and the UIDVALIDITY
    logic of [imap_client.py] and [main.py], with the properties the
    specification states about them.

    Conventions of the embedding.
    - A Python [str] is a [string]; the text is taken to be ASCII, so
      [str.lower] and SQLite's [LOWER] agree (both fold [A-Z] only).
    - A Python [int] is a [Z]; a [float] (distance, score) is a rational [Q].
    - A [dict] is a [gmap]; the key [str(faiss_id)] is [pretty] of the
      integer, its decimal notation.
    - The sentence transformer, the FAISS index search, the [re] engine,
      the [datetime] parsers and SQLite's reading of a text as a number are
      external libraries: they are section variables, and [Fake] gives
      deterministic stand-ins to run the model.
    - The [date] column is declared [TIMESTAMP] and so has NUMERIC affinity:
      a date text that reads as a number is stored, compared and returned as
      that number. *)

From Stdlib Require Import ZArith QArith List Ascii String Lia Permutation.
From stdpp Require Import base option list gmap strings pretty sorting.

Set Warnings "-clear-no-such-hyp".

Local Open Scope string_scope.
Local Open Scope list_scope.
Local Open Scope Z_scope.

(** ** Python built-ins used by the sources *)

Module Py.

(** [range(0, stop, step)] for a positive [step]. *)
Fixpoint range_step_from (fuel : nat) (start stop step : nat) : list nat :=
  match fuel with
  | O => []
  | S fuel' =>
      if decide (start < stop)%nat
      then start :: range_step_from fuel' (start + step) stop step
      else []
  end.

Definition range_step (stop step : nat) : list nat :=
  range_step_from stop 0 stop step.

(** [l[i:j]] for [0 <= i <= j]. *)
Definition slice {A} (l : list A) (i j : nat) : list A :=
  take (j - i) (drop i l).

(** [l[:n]] for any integer [n]: a negative [n] counts from the end. *)
Definition slice_to {A} (l : list A) (n : Z) : list A :=
  if decide (0 <= n) then take (Z.to_nat n) l
  else take (length l - Z.to_nat (- n)) l.

(** [enumerate(l)], the counter being a Python integer. *)
Fixpoint enumerate_from {A} (i : Z) (l : list A) : list (Z * A) :=
  match l with
  | [] => []
  | x :: l' => (i, x) :: enumerate_from (i + 1) l'
  end.

Definition enumerate {A} (l : list A) : list (Z * A) := enumerate_from 0 l.

(** [str(n)] for an integer. *)
Definition str (n : Z) : string := pretty n.

(** Truth value of an optional string argument: [None] and [''] are false. *)
Definition truthy (o : option string) : bool :=
  match o with
  | Some s => negb (String.eqb s "")
  | None => false
  end.

(** [c.lower()] and [s.lower()] on ASCII text. *)
Definition lower_ascii (c : ascii) : ascii :=
  let n := nat_of_ascii c in
  if (65 <=? n)%nat && (n <=? 90)%nat then ascii_of_nat (n + 32) else c.

Fixpoint lower (s : string) : string :=
  match s with
  | EmptyString => EmptyString
  | String c s' => String (lower_ascii c) (lower s')
  end.

(** The ASCII characters for which [str.isspace] holds. *)
Definition is_space (c : ascii) : bool :=
  let n := nat_of_ascii c in
  ((9 <=? n)%nat && (n <=? 13)%nat) || ((28 <=? n)%nat && (n <=? 32)%nat).

(** [s.split()]: the maximal runs of non-space characters.  [cur] is the run
    being read. *)
Fixpoint split_from (cur : option string) (s : string) : list string :=
  match s with
  | EmptyString => match cur with Some t => [t] | None => [] end
  | String c s' =>
      if is_space c
      then match cur with
           | Some t => t :: split_from None s'
           | None => split_from None s'
           end
      else split_from (Some (default "" cur +:+ String c "")) s'
  end.

Definition split (s : string) : list string := split_from None s.

(** [sub in s]. *)
Fixpoint contains (sub s : string) : bool :=
  String.prefix sub s ||
  match s with
  | EmptyString => false
  | String _ s' => contains sub s'
  end.

(** [s.replace(old, new)] for a one-character [old]. *)
Fixpoint replace_char (old : ascii) (new : string) (s : string) : string :=
  match s with
  | EmptyString => EmptyString
  | String c s' =>
      if Ascii.eqb c old then new +:+ replace_char old new s'
      else String c (replace_char old new s')
  end.

(** [re.sub(pattern, '', s)] for a pattern that is a plain text: every
    occurrence, read from the left, is removed.  [skip] counts the characters
    of an occurrence still to be dropped. *)
Fixpoint remove_from (skip : nat) (old : string) (s : string) : string :=
  match s with
  | EmptyString => EmptyString
  | String c s' =>
      match skip with
      | S k => remove_from k old s'
      | O =>
          if negb (String.eqb old "") && String.prefix old s
          then remove_from (String.length old - 1) old s'
          else String c (remove_from 0 old s')
      end
  end.

Definition remove_all (old s : string) : string := remove_from 0 old s.

(** [re.sub(r'\n{2,}', '\n', s)]: a run of newlines becomes one newline. *)
Definition newline : ascii := ascii_of_nat 10.

Fixpoint squeeze_newlines_from (after_newline : bool) (s : string) : string :=
  match s with
  | EmptyString => EmptyString
  | String c s' =>
      if Ascii.eqb c newline then
        if after_newline then squeeze_newlines_from true s'
        else String c (squeeze_newlines_from true s')
      else String c (squeeze_newlines_from false s')
  end.

Definition squeeze_newlines (s : string) : string :=
  squeeze_newlines_from false s.

(** [s.strip()]. *)
Fixpoint lstrip (s : string) : string :=
  match s with
  | EmptyString => EmptyString
  | String c s' => if is_space c then lstrip s' else s
  end.

Fixpoint rstrip (s : string) : string :=
  match s with
  | EmptyString => EmptyString
  | String c s' =>
      match rstrip s' with
      | EmptyString => if is_space c then EmptyString else String c EmptyString
      | rest => String c rest
      end
  end.

Definition strip (s : string) : string := rstrip (lstrip s).

(** [l.sort(key=..., reverse=True)] and any other stable descending sort:
    [geb x y] says that [x] may stand before [y]; of two elements that may
    stand either way the one that came first stays first. *)
Fixpoint insert_desc {A} (geb : A -> A -> bool) (x : A) (l : list A) : list A :=
  match l with
  | [] => [x]
  | y :: l' => if geb x y then x :: y :: l' else y :: insert_desc geb x l'
  end.

Definition sort_desc {A} (geb : A -> A -> bool) (l : list A) : list A :=
  foldr (insert_desc geb) [] l.

(** An exception leaving the function, or its value. *)
Inductive exn := ValueError | AttributeError | ReError.

Inductive outcome (A : Type) :=
| Ok (a : A)
| Raise (e : exn).
Arguments Ok {A} a.
Arguments Raise {A} e.

Definition bind {A B} (o : outcome A) (k : A -> outcome B) : outcome B :=
  match o with
  | Ok a => k a
  | Raise e => Raise e
  end.

(** [[x for x in l if p(x)]] where [p] may raise. *)
Fixpoint filter_raising {A} (p : A -> outcome bool) (l : list A)
  : outcome (list A) :=
  match l with
  | [] => Ok []
  | x :: l' =>
      bind (p x) (fun keep =>
      bind (filter_raising p l') (fun rest =>
      Ok (if keep then x :: rest else rest)))
  end.

End Py.

(** ** config.py *)

Module Config.

Definition EMBEDDING_BATCH_SIZE : nat := 64.

End Config.

(** ** email_cleaner.py *)

(** [clean_email_for_search]: the text derived from subject and body for the
    semantic search. *)
Definition clean_email_for_search (subject body : string) : string :=
  let nl := String Py.newline EmptyString in
  let search_text := subject +:+ nl +:+ nl +:+ body in
  let search_text := Py.remove_all "[URL]" search_text in
  let search_text := Py.remove_all "[EMAIL]" search_text in
  let search_text := Py.squeeze_newlines search_text in
  Py.strip search_text.

(** [s.upper()] on ASCII text. *)
Definition upper_ascii (c : ascii) : ascii :=
  let n := nat_of_ascii c in
  if (97 <=? n)%nat && (n <=? 122)%nat then ascii_of_nat (n - 32) else c.

Fixpoint upper (s : string) : string :=
  match s with
  | EmptyString => EmptyString
  | String c s' => String (upper_ascii c) (upper s')
  end.

(** [s[n:]]. *)
Fixpoint string_drop (n : nat) (s : string) : string :=
  match n, s with
  | O, _ => s
  | S n', String _ s' => string_drop n' s'
  | S _, EmptyString => EmptyString
  end.

(** The text up to the first newline. *)
Fixpoint first_line (s : string) : string :=
  match s with
  | EmptyString => EmptyString
  | String c s' =>
      if Ascii.eqb c Py.newline then EmptyString else String c (first_line s')
  end.

(** [re.search(r'URGENT.*REPLY', s)]: "URGENT" and, after it and before the
    next newline, "REPLY". *)
Fixpoint urgent_reply (s : string) : bool :=
  (String.prefix "URGENT" s
   && Py.contains "REPLY" (first_line (string_drop 6 s)))
  || match s with
     | EmptyString => false
     | String _ s' => urgent_reply s'
     end.

(** The spam indicators that are plain texts. *)
Definition spam_phrases : list string :=
  ["CLICK HERE NOW"; "MAKE MONEY FAST"; "FREE MONEY"; "ACT NOW"].

(** [validate_email_content]. *)
Definition validate_email_content (subject body : string) : bool :=
  if String.eqb subject "" && String.eqb body "" then false
  else if (String.length (Py.strip body) <? 20)%nat then false
  else
    let combined_text := upper (subject +:+ " " +:+ body) in
    if urgent_reply combined_text then false
    else negb (existsb (fun pattern => Py.contains pattern combined_text)
                       spam_phrases).

(** ** embedding.py: the Identity Map and the Incremental Indexer *)

(** A record as [_fetch_email_batch] builds it.  [body] is read with
    [email.get('body', '')], so the key may be absent. *)
Record email := {
  uid : string;
  subject : string;
  sender : string;
  body : option string;
  date : string;
  search_content : string
}.

Section Indexer.

(** The vectors and [SentenceTransformer.encode]. *)
Variable V : Type.
Variable encode : list string -> list V.

(** [EmbeddingManager]: [index] is the FAISS index, position = insertion
    order, [index.ntotal] its length.  [model_calls] records the argument of
    every [self.model.encode] call, oldest first (what a test reads from the
    mock's [call_args]). *)
Record EmbeddingManager := {
  model_calls : list (list string);
  index : list V;
  uid_to_faiss_id : gmap string Z;
  faiss_id_to_uid : gmap string string
}.

(** The two artifacts under [Config.FAISS_INDEX_PATH] and
    [Config.FAISS_MAPPING_PATH]; [None] when the file does not exist. *)
Record files := {
  faiss_index_bin : option (list V);
  faiss_mapping_json : option (gmap string Z * gmap string string)
}.

Definition ntotal (m : EmbeddingManager) : Z := Z.of_nat (length (index m)).

Definition _save_mapping (m : EmbeddingManager) (fs : files) : files :=
  {| faiss_index_bin := faiss_index_bin fs;
     faiss_mapping_json := Some (uid_to_faiss_id m, faiss_id_to_uid m) |}.

Definition _save_index (m : EmbeddingManager) (fs : files) : files :=
  _save_mapping m
    {| faiss_index_bin := Some (index m);
       faiss_mapping_json := faiss_mapping_json fs |}.

Definition _load_mapping (m : EmbeddingManager) (fs : files) : EmbeddingManager :=
  match faiss_mapping_json fs with
  | Some (u2f, f2u) =>
      {| model_calls := model_calls m; index := index m;
         uid_to_faiss_id := u2f; faiss_id_to_uid := f2u |}
  | None =>
      {| model_calls := model_calls m; index := index m;
         uid_to_faiss_id := ∅; faiss_id_to_uid := ∅ |}
  end.

Definition _load_or_create_index (m : EmbeddingManager) (fs : files)
  : EmbeddingManager * files :=
  match faiss_index_bin fs with
  | Some stored =>
      let m1 := {| model_calls := model_calls m; index := stored;
                   uid_to_faiss_id := uid_to_faiss_id m;
                   faiss_id_to_uid := faiss_id_to_uid m |} in
      (_load_mapping m1 fs, fs)
  | None =>
      (* sample_embedding = self.model.encode(["test"]) gives the dimension *)
      let m1 := {| model_calls := model_calls m ++ [["test"]]; index := [];
                   uid_to_faiss_id := uid_to_faiss_id m;
                   faiss_id_to_uid := faiss_id_to_uid m |} in
      (m1, _save_index m1 fs)
  end.

(** [EmbeddingManager.__init__]. *)
Definition EmbeddingManager_init (fs : files) : EmbeddingManager * files :=
  _load_or_create_index
    {| model_calls := []; index := []; uid_to_faiss_id := ∅;
       faiss_id_to_uid := ∅ |} fs.

(** The texts [_embed_batch] hands to the model. *)
Definition bodies (batch : list email) : list string :=
  map (fun e => default "" (body e)) batch.

Definition update_mappings (start_id : Z) (batch : list email)
    (maps : gmap string Z * gmap string string)
  : gmap string Z * gmap string string :=
  fold_left
    (fun maps ie =>
       let faiss_id := start_id + fst ie in
       let u := uid (snd ie) in
       (<[u := faiss_id]> (fst maps), <[Py.str faiss_id := u]> (snd maps)))
    (Py.enumerate batch) maps.

Definition _embed_batch (m : EmbeddingManager) (batch : list email)
  : EmbeddingManager :=
  let texts := bodies batch in
  let embeddings := encode texts in
  let start_id := ntotal m in
  let maps := update_mappings start_id batch
                (uid_to_faiss_id m, faiss_id_to_uid m) in
  {| model_calls := model_calls m ++ [texts];
     index := index m ++ embeddings;
     uid_to_faiss_id := fst maps;
     faiss_id_to_uid := snd maps |}.

(** The records [embed_emails] keeps: those whose uid is not yet mapped. *)
Definition new_emails (m : EmbeddingManager) (emails : list email) : list email :=
  filter (fun e => uid_to_faiss_id m !! uid e = None) emails.

Definition batches (l : list email) : list (list email) :=
  map (fun i => Py.slice l i (i + Config.EMBEDDING_BATCH_SIZE))
      (Py.range_step (length l) Config.EMBEDDING_BATCH_SIZE).

Definition embed_emails (m : EmbeddingManager) (emails : list email) (fs : files)
  : EmbeddingManager * files :=
  match emails with
  | [] => (m, fs)
  | _ =>
      match new_emails m emails with
      | [] => (m, fs)
      | new =>
          let m' := fold_left _embed_batch (batches new) m in
          (m', _save_index m' fs)
      end
  end.

Definition clear_index (m : EmbeddingManager) (fs : files)
  : EmbeddingManager * files :=
  let fs1 := {| faiss_index_bin := None; faiss_mapping_json := None |} in
  let m1 := {| model_calls := model_calls m; index := index m;
               uid_to_faiss_id := ∅; faiss_id_to_uid := ∅ |} in
  _load_or_create_index m1 fs1.

(** A run of the indexer: the manager is built from the files, then
    [embed_emails] is called once per element of [calls]. *)
Definition index_all (calls : list (list email)) (st : EmbeddingManager * files)
  : EmbeddingManager * files :=
  fold_left (fun st emails => embed_emails (fst st) emails (snd st)) calls st.

Definition no_files : files :=
  {| faiss_index_bin := None; faiss_mapping_json := None |}.

(** ** The Identity Map invariant *)

Local Abbreviation manager := EmbeddingManager.

(** [us] lists the indexed uids by position: both directions of the map say
    exactly that the uid at position [i] is [us !! i]. *)
Record maps_rep (us : list string)
    (u2f : gmap string Z) (f2u : gmap string string) : Prop := {
  rep_nodup : NoDup us;
  rep_size_u2f : size u2f = length us;
  rep_size_f2u : size f2u = length us;
  rep_u2f : forall u i,
    u2f !! u = Some i <-> 0 <= i /\ us !! Z.to_nat i = Some u;
  rep_f2u : forall k u,
    f2u !! k = Some u <-> exists i : nat, k = Py.str (Z.of_nat i) /\ us !! i = Some u
}.

Definition represents (m : manager) (us : list string) : Prop :=
  length (index m) = length us /\
  maps_rep us (uid_to_faiss_id m) (faiss_id_to_uid m).

(** The uids in position order after one more [embed_emails] call. *)
Definition arrivals (us : list string) (emails : list email) : list string :=
  us ++ map uid (filter (fun e => uid e ∉ us) emails).

Definition indexed_uids (calls : list (list email)) : list string :=
  fold_left arrivals calls [].

Lemma str_inj (i j : Z) : Py.str i = Py.str j -> i = j.
Proof. unfold Py.str. apply (inj pretty). Qed.

Lemma maps_rep_empty : maps_rep [] ∅ ∅.
Proof.
  split.
  - constructor.
  - apply map_size_empty.
  - apply map_size_empty.
  - intros u i. rewrite lookup_empty. split; [discriminate|].
    intros [_ H]. rewrite lookup_nil in H. discriminate.
  - intros k u. rewrite lookup_empty. split; [discriminate|].
    intros (i & _ & H). rewrite lookup_nil in H. discriminate.
Qed.

Lemma maps_rep_fresh us u2f f2u u :
  maps_rep us u2f f2u -> u ∉ us -> u2f !! u = None.
Proof.
  intros R Hu. destruct (u2f !! u) as [i|] eqn:E; [|done].
  apply (rep_u2f _ _ _ R) in E as [_ E].
  exfalso. apply Hu. eapply list_elem_of_lookup_2, E.
Qed.

Lemma maps_rep_mapped us u2f f2u u :
  maps_rep us u2f f2u -> u ∈ us -> is_Some (u2f !! u).
Proof.
  intros R Hu. apply list_elem_of_lookup_1 in Hu as [n Hn].
  exists (Z.of_nat n). apply (rep_u2f _ _ _ R).
  split; [lia|]. by rewrite Nat2Z.id.
Qed.

Lemma lookup_snoc_Some (us : list string) (u u' : string) (n : nat) :
  (us ++ [u]) !! n = Some u' <->
  us !! n = Some u' \/ (n = length us /\ u' = u).
Proof.
  rewrite lookup_app_Some. split.
  - intros [H|[Hle H]]; [by left|right].
    destruct (n - length us)%nat eqn:E; simpl in H; [|by rewrite lookup_nil in H].
    split; [lia|congruence].
  - intros [H|[-> ->]]; [by left|right].
    split; [lia|]. by rewrite Nat.sub_diag.
Qed.

(** One iteration of the loop at the end of [_embed_batch]. *)
Lemma maps_rep_insert us u2f f2u u :
  maps_rep us u2f f2u -> u ∉ us ->
  maps_rep (us ++ [u])
    (<[u := Z.of_nat (length us)]> u2f)
    (<[Py.str (Z.of_nat (length us)) := u]> f2u).
Proof.
  intros R Hu.
  assert (Hk : f2u !! Py.str (Z.of_nat (length us)) = None).
  { destruct (f2u !! _) as [w|] eqn:E; [|done].
    apply (rep_f2u _ _ _ R) in E as (i & Hi & E).
    apply str_inj in Hi. apply lookup_lt_Some in E. lia. }
  split.
  - apply NoDup_app. split; [apply R|]. split.
    + intros x Hx Hx'. apply list_elem_of_singleton in Hx'. by subst.
    + apply NoDup_singleton.
  - rewrite map_size_insert_None by eauto using maps_rep_fresh.
    rewrite length_app, (rep_size_u2f _ _ _ R). simpl. lia.
  - rewrite map_size_insert_None by done.
    rewrite length_app, (rep_size_f2u _ _ _ R). simpl. lia.
  - intros u' i. rewrite lookup_snoc_Some.
    destruct (decide (u = u')) as [<-|Hne].
    + rewrite lookup_insert_eq. split.
      * intros [= <-]. split; [lia|]. right. split; [lia|done].
      * intros [Hi [H|[H _]]].
        -- exfalso. apply Hu. eapply list_elem_of_lookup_2, H.
        -- f_equal. lia.
    + rewrite lookup_insert_ne by done. rewrite (rep_u2f _ _ _ R). split.
      * intros [? ?]. split; [done|by left].
      * intros [? [?|[_ ?]]]; [done|congruence].
  - intros k u'. destruct (decide (Py.str (Z.of_nat (length us)) = k)) as [<-|Hne].
    + rewrite lookup_insert_eq. split.
      * intros [= <-]. exists (length us). split; [done|].
        apply lookup_snoc_Some. by right.
      * intros (i & Hi & H). apply str_inj in Hi.
        apply lookup_snoc_Some in H as [H|[_ ->]]; [|done].
        apply lookup_lt_Some in H. lia.
    + rewrite lookup_insert_ne by done. rewrite (rep_f2u _ _ _ R). split.
      * intros (i & -> & H). exists i. split; [done|].
        apply lookup_snoc_Some. by left.
      * intros (i & -> & H). exists i. split; [done|].
        apply lookup_snoc_Some in H as [H|[-> _]]; [done|congruence].
Qed.

Lemma update_mappings_rep (batch : list email) :
  forall (j : Z) (start_id : Z) us u2f f2u,
    maps_rep us u2f f2u ->
    NoDup (us ++ map uid batch) ->
    start_id + j = Z.of_nat (length us) ->
    let maps := fold_left
      (fun maps ie =>
         (<[uid (snd ie) := start_id + fst ie]> (fst maps),
          <[Py.str (start_id + fst ie) := uid (snd ie)]> (snd maps)))
      (Py.enumerate_from j batch) (u2f, f2u) in
    maps_rep (us ++ map uid batch) (fst maps) (snd maps).
Proof.
  induction batch as [|e batch IH]; intros j start_id us u2f f2u R Hnd Hj; simpl.
  - by rewrite app_nil_r.
  - rewrite Hj. simpl in Hnd.
    assert (Hfresh : uid e ∉ us).
    { apply NoDup_app in Hnd as (_ & Hd & _). intros Hin.
      apply (Hd _ Hin). simpl. apply list_elem_of_here. }
    replace (us ++ uid e :: map uid batch)
      with ((us ++ [uid e]) ++ map uid batch) in * by by rewrite <- app_assoc.
    apply IH.
    + by apply maps_rep_insert.
    + done.
    + rewrite length_app. simpl. lia.
Qed.

Lemma _embed_batch_represents (m : manager) (batch : list email) us :
  (forall l, length (encode l) = length l) ->
  represents m us ->
  NoDup (us ++ map uid batch) ->
  represents (_embed_batch m batch) (us ++ map uid batch).
Proof.
  intros Henc [Hlen R] Hnd. split.
  - simpl. rewrite !length_app, Henc. unfold bodies.
    rewrite !length_map. lia.
  - simpl. unfold update_mappings, Py.enumerate.
    apply update_mappings_rep; [done|done|]. unfold ntotal. lia.
Qed.

Lemma range_step_slices {A} (l : list A) (step : nat) :
  (0 < step)%nat ->
  forall fuel start, (length l - start <= fuel)%nat ->
    concat (map (fun i => Py.slice l i (i + step))
                (Py.range_step_from fuel start (length l) step))
    = drop start l.
Proof.
  intros Hstep. induction fuel as [|fuel IH]; intros start Hfuel; simpl.
  - symmetry. apply drop_ge. lia.
  - case_decide as Hlt.
    + simpl. rewrite IH by lia. unfold Py.slice.
      replace (start + step - start)%nat with step by lia.
      rewrite <- drop_drop. apply take_drop.
    + symmetry. apply drop_ge. lia.
Qed.

Lemma concat_batches (l : list email) : concat (batches l) = l.
Proof.
  unfold batches, Py.range_step.
  rewrite range_step_slices; [done| |lia].
  unfold Config.EMBEDDING_BATCH_SIZE. lia.
Qed.

Lemma fold_embed_batch_represents (bs : list (list email)) :
  (forall l, length (encode l) = length l) ->
  forall (m : manager) us,
    represents m us ->
    NoDup (us ++ map uid (concat bs)) ->
    represents (fold_left (_embed_batch) bs m)
               (us ++ map uid (concat bs)).
Proof.
  intros Henc. induction bs as [|b bs IH]; intros m us R Hnd; simpl.
  - by rewrite app_nil_r.
  - simpl in Hnd. rewrite map_app, app_assoc in *.
    apply IH; [|done].
    apply _embed_batch_represents; [done|done|].
    by apply NoDup_app in Hnd as (? & _ & _).
Qed.

Lemma new_emails_filter (m : manager) us emails :
  represents m us ->
  new_emails m emails = filter (fun e => uid e ∉ us) emails.
Proof.
  intros [_ R]. unfold new_emails. apply list_filter_iff. intros e. split.
  - intros Hnone Hin.
    destruct (maps_rep_mapped _ _ _ _ R Hin) as [i Hi]. congruence.
  - intros Hnot. eapply maps_rep_fresh; eauto.
Qed.

Lemma NoDup_arrivals us emails :
  NoDup us -> NoDup (map uid emails) -> NoDup (arrivals us emails).
Proof.
  intros Hus Hnd. unfold arrivals. apply NoDup_app. split; [done|]. split.
  - intros x Hx Hx'. apply list_elem_of_fmap in Hx' as (e & -> & He).
    apply list_elem_of_filter in He as [He _]. by apply He.
  - induction emails as [|e emails IH]; simpl; [constructor|].
    apply NoDup_cons in Hnd as [Hhd Htl].
    rewrite filter_cons. case_decide.
    + simpl. apply NoDup_cons. split; [|by apply IH].
      intros Hin. apply Hhd.
      apply list_elem_of_fmap in Hin as (e' & Heq & He').
      apply list_elem_of_filter in He' as [_ He'].
      apply list_elem_of_fmap. by exists e'.
    + by apply IH.
Qed.

Lemma embed_emails_represents (m : manager) us emails fs :
  (forall l, length (encode l) = length l) ->
  represents m us ->
  NoDup (map uid emails) ->
  represents (fst (embed_emails m emails fs)) (arrivals us emails).
Proof.
  intros Henc R Hnd.
  assert (Hnew := new_emails_filter m us emails R).
  assert (Harr := NoDup_arrivals us emails (rep_nodup _ _ _ (proj2 R)) Hnd).
  unfold embed_emails, arrivals in *.
  destruct emails as [|e0 emails0]; [by rewrite filter_nil, app_nil_r|].
  set (emails := e0 :: emails0) in *.
  rewrite <- Hnew in *.
  destruct (new_emails m emails) as [|e new] eqn:E; cbn [fst].
  - by rewrite app_nil_r.
  - rewrite <- (concat_batches (e :: new)) at 2.
    apply fold_embed_batch_represents; [done|done|].
    by rewrite concat_batches.
Qed.

Lemma index_all_represents (calls : list (list email)) :
  (forall l, length (encode l) = length l) ->
  Forall (fun emails => NoDup (map uid emails)) calls ->
  forall st us,
    represents (fst st) us ->
    represents (fst (index_all calls st)) (fold_left arrivals calls us).
Proof.
  intros Henc. induction 1 as [|emails calls Hnd _ IH]; intros st us R; simpl.
  - done.
  - apply IH. simpl. by apply embed_emails_represents.
Qed.

Lemma init_represents :
  represents (fst (EmbeddingManager_init no_files)) [].
Proof. split; [done|]. simpl. apply maps_rep_empty. Qed.

(** The files hold the pair that is in memory, so that the manager a later
    run builds from them is the one this run leaves (but for the record of
    the model calls). *)
Definition persisted (st : manager * files) : Prop :=
  faiss_index_bin (snd st) = Some (index (fst st)) /\
  faiss_mapping_json (snd st)
  = Some (uid_to_faiss_id (fst st), faiss_id_to_uid (fst st)).

Lemma init_persisted : persisted (EmbeddingManager_init no_files).
Proof. by split. Qed.

Lemma embed_emails_persisted (st : manager * files) (emails : list email) :
  persisted st -> persisted (embed_emails (fst st) emails (snd st)).
Proof.
  intros Hst. unfold embed_emails.
  destruct emails as [|e0 emails0]; [by destruct st|].
  destruct (new_emails (fst st) (e0 :: emails0)); [by destruct st|by split].
Qed.

Lemma index_all_persisted (calls : list (list email)) :
  forall st, persisted st -> persisted (index_all calls st).
Proof.
  induction calls as [|emails calls IH]; intros st Hst; simpl; [done|].
  by apply IH, embed_emails_persisted.
Qed.

Lemma reload_persisted (st : manager * files) :
  persisted st ->
  EmbeddingManager_init (snd st)
  = ({| model_calls := []; index := index (fst st);
        uid_to_faiss_id := uid_to_faiss_id (fst st);
        faiss_id_to_uid := faiss_id_to_uid (fst st) |}, snd st).
Proof.
  intros [Hidx Hmap]. unfold EmbeddingManager_init, _load_or_create_index.
  rewrite Hidx. unfold _load_mapping. by rewrite Hmap.
Qed.

(** C1. After any sequence of [embed_emails] calls on a fresh index, each
    call's records having distinct uids, the Identity Map is a bijection
    between the indexed uids and the positions [0 .. N-1], [N] being the size
    of the Vector Index, and the uid at position [n] is the [n]-th record to
    arrive: positions start at 0 and follow the input order, each one being
    the size of the index when its record was appended. *)
Theorem identity_map_bijection (calls : list (list email)) :
  (forall l, length (encode l) = length l) ->
  Forall (fun emails => NoDup (map uid emails)) calls ->
  let m := fst (index_all calls (EmbeddingManager_init no_files)) in
  let us := indexed_uids calls in
  ntotal m = Z.of_nat (length us)
  /\ size (uid_to_faiss_id m) = length us
  /\ size (faiss_id_to_uid m) = length us
  /\ (forall i, 0 <= i < ntotal m ->
        exists u, uid_to_faiss_id m !! u = Some i
               /\ faiss_id_to_uid m !! Py.str i = Some u
               /\ forall u', uid_to_faiss_id m !! u' = Some i -> u' = u)
  /\ (forall u i, uid_to_faiss_id m !! u = Some i ->
        0 <= i < ntotal m /\ faiss_id_to_uid m !! Py.str i = Some u)
  /\ (forall k u, faiss_id_to_uid m !! k = Some u ->
        exists i, k = Py.str i /\ uid_to_faiss_id m !! u = Some i)
  /\ (forall (n : nat) u,
        us !! n = Some u <-> uid_to_faiss_id m !! u = Some (Z.of_nat n)).
Proof.
  intros Henc Hnd m us.
  destruct (index_all_represents calls Henc Hnd _ [] init_represents)
    as [Hlen R].
  fold m in Hlen, R. fold (indexed_uids calls) in Hlen, R. fold us in Hlen, R.
  assert (Hn : ntotal m = Z.of_nat (length us)) by (unfold ntotal; lia).
  assert (Hpos : forall (n : nat) u,
            us !! n = Some u <-> uid_to_faiss_id m !! u = Some (Z.of_nat n)).
  { intros n u. rewrite (rep_u2f _ _ _ R), Nat2Z.id. split; [|tauto].
    intros H. split; [lia|done]. }
  split; [done|]. split; [apply R|]. split; [apply R|].
  split; [|split; [|split; [|done]]].
  - intros i Hi. rewrite Hn in Hi.
    destruct (lookup_lt_is_Some_2 us (Z.to_nat i)) as [u Hu]; [lia|].
    exists u. split; [|split].
    + apply (rep_u2f _ _ _ R). split; [lia|done].
    + apply (rep_f2u _ _ _ R). exists (Z.to_nat i). split; [|done].
      f_equal. lia.
    + intros u' Hu'. apply (rep_u2f _ _ _ R) in Hu' as [_ Hu']. congruence.
  - intros u i Hu. apply (rep_u2f _ _ _ R) in Hu as [Hi Hu]. split.
    + apply lookup_lt_Some in Hu. lia.
    + apply (rep_f2u _ _ _ R). exists (Z.to_nat i). split; [|done].
      f_equal. lia.
  - intros k u Hk. apply (rep_f2u _ _ _ R) in Hk as (n & -> & Hn').
    exists (Z.of_nat n). split; [done|]. by apply Hpos.
Qed.

(** ** Idempotent indexing *)

Lemma update_mappings_dom (batch : list email) :
  forall (j start_id : Z) (maps : gmap string Z * gmap string string),
    dom (fst (fold_left
      (fun maps ie =>
         (<[uid (snd ie) := start_id + fst ie]> (fst maps),
          <[Py.str (start_id + fst ie) := uid (snd ie)]> (snd maps)))
      (Py.enumerate_from j batch) maps))
    = dom (fst maps) ∪ list_to_set (map uid batch).
Proof.
  induction batch as [|e batch IH]; intros j start_id maps; simpl.
  - set_solver.
  - rewrite IH. simpl. rewrite dom_insert_L. set_solver.
Qed.

Lemma _embed_batch_dom (m : manager) (batch : list email) :
  dom (uid_to_faiss_id (_embed_batch m batch))
  = dom (uid_to_faiss_id m) ∪ list_to_set (map uid batch).
Proof. simpl. unfold update_mappings, Py.enumerate. apply update_mappings_dom. Qed.

Lemma fold_embed_batch_dom (bs : list (list email)) :
  forall m : manager,
    dom (uid_to_faiss_id (fold_left _embed_batch bs m))
    = dom (uid_to_faiss_id m) ∪ list_to_set (map uid (concat bs)).
Proof.
  induction bs as [|b bs IH]; intros m; simpl.
  - set_solver.
  - rewrite IH, _embed_batch_dom, map_app, list_to_set_app_L. set_solver.
Qed.

Lemma embed_emails_dom (m : manager) (emails : list email) (fs : files) :
  dom (uid_to_faiss_id (fst (embed_emails m emails fs)))
  = dom (uid_to_faiss_id m) ∪ list_to_set (map uid emails).
Proof.
  assert (Hsplit : forall e, e ∈ emails ->
            uid e ∈ dom (uid_to_faiss_id m) \/ e ∈ new_emails m emails).
  { intros e He. destruct (uid_to_faiss_id m !! uid e) as [i|] eqn:E.
    - left. apply elem_of_dom. eauto.
    - right. apply list_elem_of_filter. done. }
  assert (Hnew : forall e, e ∈ new_emails m emails -> e ∈ emails).
  { intros e He. by apply list_elem_of_filter in He as [_ ?]. }
  assert (Hgoal : dom (uid_to_faiss_id m) ∪
                    list_to_set (map uid (new_emails m emails))
                  = dom (uid_to_faiss_id m) ∪ list_to_set (map uid emails)).
  { apply set_eq. intros u.
    rewrite !elem_of_union, !elem_of_list_to_set, !list_elem_of_fmap. split.
    - intros [?|(e & -> & He)]; [by left|]. right. exists e. eauto.
    - intros [?|(e & -> & He)]; [by left|].
      destruct (Hsplit e He); [by left|]. right. by exists e. }
  unfold embed_emails. destruct emails as [|e0 emails0]; [set_solver|].
  set (emails := e0 :: emails0) in *.
  destruct (new_emails m emails) as [|e new] eqn:E; cbn [fst].
  - rewrite <- Hgoal. set_solver.
  - by rewrite fold_embed_batch_dom, concat_batches.
Qed.

(** C2. For every sequence of records [R], indexing [R] and then [R] again:
    the second call finds no record to index (every uid of [R] is already in
    the Identity Map and is filtered out) and returns the manager and the
    persisted files unchanged, so the sizes of the Identity Map and of the
    Vector Index stay the same. *)
Theorem embed_emails_idempotent (m : manager) (emails : list email) (fs : files) :
  let st1 := embed_emails m emails fs in
  let st2 := embed_emails (fst st1) emails (snd st1) in
  new_emails (fst st1) emails = []
  /\ st2 = st1
  /\ length (index (fst st2)) = length (index (fst st1))
  /\ size (uid_to_faiss_id (fst st2)) = size (uid_to_faiss_id (fst st1))
  /\ size (faiss_id_to_uid (fst st2)) = size (faiss_id_to_uid (fst st1)).
Proof.
  intros st1 st2.
  assert (Hnone : new_emails (fst st1) emails = []).
  { destruct (new_emails (fst st1) emails) as [|e l] eqn:E; [done|].
    assert (He : e ∈ new_emails (fst st1) emails)
      by (rewrite E; apply list_elem_of_here).
    apply list_elem_of_filter in He as [Hfresh He].
    apply not_elem_of_dom in Hfresh. exfalso. apply Hfresh.
    unfold st1. rewrite embed_emails_dom.
    apply elem_of_union_r, elem_of_list_to_set, list_elem_of_fmap.
    by exists e. }
  assert (H2 : st2 = st1).
  { unfold st2, embed_emails at 1. rewrite Hnone.
    destruct emails; by destruct st1. }
  split; [done|]. split; [done|]. by rewrite H2.
Qed.

(** ** What the Embedding Oracle receives *)

Lemma fold_embed_batch_calls (bs : list (list email)) :
  forall m : manager,
    model_calls (fold_left _embed_batch bs m) = model_calls m ++ map bodies bs.
Proof.
  induction bs as [|b bs IH]; intros m; simpl.
  - by rewrite app_nil_r.
  - rewrite IH. simpl. by rewrite <- app_assoc.
Qed.

Lemma bodies_app (l1 l2 : list email) : bodies (l1 ++ l2) = bodies l1 ++ bodies l2.
Proof. apply map_app. Qed.

Lemma concat_map_bodies (bs : list (list email)) :
  concat (map bodies bs) = bodies (concat bs).
Proof.
  induction bs as [|b bs IH]; simpl; [done|].
  by rewrite IH, bodies_app.
Qed.

(** The texts handed to the Embedding Oracle during one [embed_emails] call
    are, batch by batch and in input order, the [body] fields of the records
    that are new ([''] for a record without a body); the subject is not part
    of the text, and every new record's body is passed exactly once. *)
Lemma oracle_receives_bodies (m : manager) (emails : list email) (fs : files) :
  let m' := fst (embed_emails m emails fs) in
  let calls := map bodies (batches (new_emails m emails)) in
  model_calls m' = model_calls m ++ calls
  /\ concat calls
     = map (fun e => default "" (body e)) (new_emails m emails).
Proof.
  intros m' calls. split.
  - unfold m', calls, embed_emails.
    destruct emails as [|e0 emails0]; [by rewrite app_nil_r|].
    destruct (new_emails m (e0 :: emails0)) as [|e new] eqn:E; cbn [fst].
    + by rewrite app_nil_r.
    + apply fold_embed_batch_calls.
  - unfold calls. by rewrite concat_map_bodies, concat_batches.
Qed.

(** A record with nothing but its uid and its body. *)
Definition uid_and_body (e : email) : email :=
  {| uid := uid e; subject := ""; sender := ""; body := body e; date := "";
     search_content := "" |}.

Lemma map_uid_and_body (emails emails' : list email) :
  map uid emails' = map uid emails ->
  map body emails' = map body emails ->
  map uid_and_body emails' = map uid_and_body emails.
Proof.
  revert emails'. induction emails as [|e emails IH]; intros [|e' emails'];
    simpl; try done.
  intros [= Hu Hus] [= Hb Hbs]. unfold uid_and_body at 1 3.
  rewrite Hu, Hb. f_equal. by apply IH.
Qed.

Lemma new_emails_uid_and_body (m : manager) (emails : list email) :
  new_emails m (map uid_and_body emails) = map uid_and_body (new_emails m emails).
Proof.
  unfold new_emails. induction emails as [|e emails IH]; simpl; [done|].
  rewrite !filter_cons. simpl. case_decide; simpl; by rewrite IH.
Qed.

Lemma batches_map (f : email -> email) (l : list email) :
  batches (map f l) = map (map f) (batches l).
Proof.
  unfold batches. rewrite length_map, map_map. apply map_ext. intros i.
  unfold Py.slice. by rewrite <- fmap_drop, <- fmap_take.
Qed.

Lemma update_mappings_uid_and_body (start_id : Z) (batch : list email)
    (maps : gmap string Z * gmap string string) :
  update_mappings start_id (map uid_and_body batch) maps
  = update_mappings start_id batch maps.
Proof.
  unfold update_mappings, Py.enumerate. generalize 0. revert maps.
  induction batch as [|e batch IH]; intros maps j; simpl; [done|]. apply IH.
Qed.

Lemma _embed_batch_uid_and_body (m : manager) (batch : list email) :
  _embed_batch m (map uid_and_body batch) = _embed_batch m batch.
Proof.
  unfold _embed_batch. rewrite update_mappings_uid_and_body.
  assert (Hbodies : bodies (map uid_and_body batch) = bodies batch)
    by (unfold bodies; by rewrite map_map).
  by rewrite Hbodies.
Qed.

Lemma fold_embed_batch_uid_and_body (bs : list (list email)) (m : manager) :
  fold_left _embed_batch (map (map uid_and_body) bs) m
  = fold_left _embed_batch bs m.
Proof.
  revert m. induction bs as [|b bs IH]; intros m; simpl; [done|].
  by rewrite _embed_batch_uid_and_body, IH.
Qed.

Lemma embed_emails_uid_and_body (m : manager) (emails : list email) (fs : files) :
  embed_emails m (map uid_and_body emails) fs = embed_emails m emails fs.
Proof.
  unfold embed_emails. destruct emails as [|e emails]; [done|].
  change (map uid_and_body (e :: emails))
    with (uid_and_body e :: map uid_and_body emails) at 1.
  cbv iota match beta.
  change (uid_and_body e :: map uid_and_body emails)
    with (map uid_and_body (e :: emails)).
  rewrite new_emails_uid_and_body.
  destruct (new_emails m (e :: emails)) as [|n new]; [done|].
  change (map uid_and_body (n :: new))
    with (uid_and_body n :: map uid_and_body new) at 1.
  cbv iota match beta.
  change (uid_and_body n :: map uid_and_body new)
    with (map uid_and_body (n :: new)).
  by rewrite batches_map, fold_embed_batch_uid_and_body.
Qed.

(** C4, as the code has it.  During one [embed_emails] call the texts handed
    to the Embedding Oracle are, batch by batch and in input order, the
    bodies of the new records ([''] for a record without a body), each once.
    The subject and the derived search text are not read: two lists of
    records with the same uids and the same bodies give the same oracle
    calls, the same index, the same maps and the same files. *)
Theorem oracle_receives_body_only (m : manager) (emails : list email)
    (fs : files) :
  let m' := fst (embed_emails m emails fs) in
  (exists calls,
      model_calls m' = model_calls m ++ calls
      /\ concat calls = map (fun e => default "" (body e)) (new_emails m emails))
  /\ forall emails',
       map uid emails' = map uid emails ->
       map body emails' = map body emails ->
       embed_emails m emails' fs = embed_emails m emails fs.
Proof.
  intros m'. split.
  - destruct (oracle_receives_bodies m emails fs) as [Hcalls Hconcat]. eauto.
  - intros emails' Hu Hb.
    rewrite <- (embed_emails_uid_and_body m emails'),
      <- (embed_emails_uid_and_body m emails).
    by rewrite (map_uid_and_body emails emails').
Qed.

(** ** Loading the persisted pair *)

(** The accessor of the specification: the Identity Map and the Vector Index
    have the same size. *)
Definition is_consistent (m : manager) : Prop :=
  size (uid_to_faiss_id m) = length (index m)
  /\ size (faiss_id_to_uid m) = length (index m).

(** C3, as the code has it.  When an index file exists, building the manager
    returns the stored index together with the stored Identity Map (the empty
    map when the mapping file is missing) and leaves the files as they are:
    the two sizes are not compared and the load cannot fail on them. *)
Theorem load_returns_persisted_pair (fs : files) (stored : list V) :
  faiss_index_bin fs = Some stored ->
  let maps := default (∅, ∅) (faiss_mapping_json fs) in
  EmbeddingManager_init fs
  = ({| model_calls := []; index := stored;
        uid_to_faiss_id := fst maps; faiss_id_to_uid := snd maps |}, fs).
Proof.
  intros Hidx. unfold EmbeddingManager_init, _load_or_create_index.
  rewrite Hidx. unfold _load_mapping.
  by destruct (faiss_mapping_json fs) as [[u2f f2u]|].
Qed.

End Indexer.

Arguments model_calls {V} _.
Arguments index {V} _.
Arguments uid_to_faiss_id {V} _.
Arguments faiss_id_to_uid {V} _.
Arguments faiss_index_bin {V} _.
Arguments faiss_mapping_json {V} _.
Arguments ntotal {V} _.
Arguments new_emails {V} _ _.
Arguments is_consistent {V} _.

(** ** metadata_store.py and the rows the cursor returns *)

(** A number as SQLite stores it (INTEGER or REAL) and as the cursor returns
    it ([int] or [float]): a rational, or an infinity of the REAL class. *)
Inductive sql_number :=
| NumberFinite (x : Q)
| NumberInfinite (negative : bool).

(** [a <= b] on numbers. *)
Definition number_leb (a b : sql_number) : bool :=
  match a, b with
  | NumberInfinite true, _ => true
  | _, NumberInfinite false => true
  | NumberFinite x, NumberFinite y => Qle_bool x y
  | _, _ => false
  end.

(** The [date] column as the cursor returns it.  The column is declared
    [date TIMESTAMP], which gives it NUMERIC affinity: SQL [NULL] is Python
    [None], a number is an [int] or a [float], a text is a [str]. *)
Inductive sql_date :=
| DateNull
| DateNumber (x : sql_number)
| DateText (s : string).


(** A row of [SELECT uid, subject, sender, date, body FROM emails]. *)
Record row := {
  r_uid : string;
  r_subject : string;
  r_sender : string;
  r_date : sql_date;
  r_body : string
}.

(** The [emails] table in rowid order; [uid] is its primary key. *)
Definition table := list row.

(** [MetadataStore.clear]: [DELETE FROM emails]. *)
Definition clear (t : table) : table := [].

(** [INSERT OR REPLACE]: a row with the same key is deleted, the new row is
    added at the end. *)
Definition insert_or_replace (r : row) (t : table) : table :=
  filter (fun r' => r_uid r' ≠ r_uid r) t ++ [r].

Section Sqlite.

(** What NUMERIC affinity makes of a text, on storing it in the [date] column
    and on comparing the column with it: the number a text that reads as an
    integer or real literal is converted to, [None] for any other text, which
    stays a text. *)
Variable numeric_literal : string -> option sql_number.

(** The value stored in the [date] column for the text [s]. *)
Definition stored_date (s : string) : sql_date :=
  match numeric_literal s with
  | Some x => DateNumber x
  | None => DateText s
  end.

Definition row_of_email (e : email) : row :=
  {| r_uid := uid e; r_subject := subject e; r_sender := sender e;
     r_date := stored_date (date e); r_body := default "" (body e) |}.

(** [MetadataStore.update_emails]. *)
Definition update_emails (emails : list email) (t : table) : table :=
  fold_left (fun t e => insert_or_replace (row_of_email e) t) emails t.

(** ** datetime *)

(** A naive [datetime]; Python compares the fields in this order. *)
Record datetime := {
  year : Z; month : Z; day : Z;
  hour : Z; minute : Z; second : Z; microsecond : Z
}.

Definition datetime_fields (d : datetime) : list Z :=
  [year d; month d; day d; hour d; minute d; second d; microsecond d].

Fixpoint lex_leb (a b : list Z) : bool :=
  match a, b with
  | [], _ => true
  | _ :: _, [] => false
  | x :: a', y :: b' => (x <? y) || ((x =? y) && lex_leb a' b')
  end.

(** [d1 <= d2]. *)
Definition datetime_leb (d1 d2 : datetime) : bool :=
  lex_leb (datetime_fields d1) (datetime_fields d2).

(** [datetime.min], 0001-01-01 00:00:00. *)
Definition datetime_min : datetime :=
  {| year := 1; month := 1; day := 1;
     hour := 0; minute := 0; second := 0; microsecond := 0 |}.

(** The ranges every [datetime] object keeps (the lower ends are what
    matters here). *)
Definition datetime_valid (d : datetime) : Prop :=
  1 <= year d /\ 1 <= month d /\ 1 <= day d /\
  0 <= hour d /\ 0 <= minute d /\ 0 <= second d /\ 0 <= microsecond d.

(** ** search.py: the Hybrid Search Engine and the keyword fallback *)

(** A result dictionary. *)
Record result := {
  res_uid : string;
  res_subject : string;
  res_sender : string;
  res_date : sql_date;
  body_preview : string;
  full_body : string;
  similarity_score : Q
}.

(** What a search does to its collaborators, in order. *)
Inductive event :=
| ModelEncode (texts : list string)
| IndexSearch (k : Z)
| DbSelectUids (uids : list string)
| DbSelectKeywords (keywords : list string) (date_after : option string)
                   (limit : Z).


(** [body[:200] + '...' if len(body) > 200 else body]. *)
Definition preview (b : string) : string :=
  if (200 <? String.length b)%nat then String.substring 0 200 b +:+ "..."
  else b.

Definition make_result (r : row) (score : Q) : result :=
  {| res_uid := r_uid r; res_subject := r_subject r; res_sender := r_sender r;
     res_date := r_date r; body_preview := preview (r_body r);
     full_body := r_body r; similarity_score := score |}.

(** [key(x) >= key(y)] for the sort on [similarity_score]. *)
Definition score_geb (x y : result) : bool :=
  Qle_bool (similarity_score y) (similarity_score x).

(** *** SQL as [keyword_fallback_search] uses it *)

(** [text LIKE pattern]: [%] is any run of characters, [_] any one character,
    letters compare without case. *)
Fixpoint like (pattern : string) : string -> bool :=
  match pattern with
  | EmptyString => fun text => match text with EmptyString => true | _ => false end
  | String p pattern' =>
      if Ascii.eqb p "%" then
        fix star (text : string) : bool :=
          like pattern' text ||
          match text with
          | EmptyString => false
          | String _ text' => star text'
          end
      else if Ascii.eqb p "_" then
        fun text =>
          match text with
          | EmptyString => false
          | String _ text' => like pattern' text'
          end
      else
        fun text =>
          match text with
          | EmptyString => false
          | String c text' =>
              Ascii.eqb (Py.lower_ascii p) (Py.lower_ascii c) && like pattern' text'
          end
  end.

(** [(LOWER(subject) LIKE ? OR LOWER(body) LIKE ?)] with both parameters
    [%keyword%]. *)
Definition keyword_condition (keyword : string) (r : row) : bool :=
  let pat := "%" +:+ keyword +:+ "%" in
  like pat (Py.lower (r_subject r)) || like pat (Py.lower (r_body r)).

(** [x >= y] on texts, byte by byte. *)
Definition text_geb (x y : string) : bool :=
  match String.compare x y with
  | Lt => false
  | _ => true
  end.

(** [date >= ?] with a text for the parameter: never true of [NULL].  The
    column has NUMERIC affinity, so a parameter that reads as a number is
    compared as that number: with the stored numbers by value, and every
    stored text is greater.  Any other parameter is compared as a text: with
    the stored texts byte by byte, and every stored number is smaller. *)
Definition date_condition (bound : string) (r : row) : bool :=
  match numeric_literal bound with
  | Some b =>
      match r_date r with
      | DateNull => false
      | DateNumber x => number_leb b x
      | DateText _ => true
      end
  | None =>
      match r_date r with
      | DateNull => false
      | DateNumber _ => false
      | DateText d => text_geb d bound
      end
  end.

(** The [WHERE] clause. *)
Definition where_clause (keywords : list string) (date_after : option string)
    (r : row) : bool :=
  forallb (fun k => keyword_condition k r) keywords &&
  (if Py.truthy date_after then date_condition (default "" date_after) r
   else true).

(** [ORDER BY date DESC]: [NULL] is below every number, every number is
    below every text.  SQL leaves the order of rows with equal dates open;
    SQLite keeps them in table order. *)
Definition date_geb (x y : row) : bool :=
  match r_date x, r_date y with
  | _, DateNull => true
  | DateNull, _ => false
  | DateNumber a, DateNumber b => number_leb b a
  | DateNumber _, DateText _ => false
  | DateText _, DateNumber _ => true
  | DateText a, DateText b => text_geb a b
  end.

(** [LIMIT ?]: a negative limit is no limit. *)
Definition sql_limit {A} (n : Z) (l : list A) : list A :=
  if decide (n < 0) then l else take (Z.to_nat n) l.

Definition select_keywords (keywords : list string) (date_after : option string)
    (limit : Z) (t : table) : list row :=
  sql_limit limit
    (Py.sort_desc date_geb (filter (fun r => where_clause keywords date_after r = true) t)).

(** [... WHERE uid IN (?, ...)]. *)
Definition select_uids (uids : list string) (t : table) : list row :=
  filter (fun r => r_uid r ∈ uids) t.

End Sqlite.

(** ** [LIKE] with [%keyword%] and substring search *)














(** The token occurs in the subject or in the body, letter case apart. *)
Definition token_in (token : string) (r : row) : bool :=
  Py.contains token (Py.lower (r_subject r)) ||
  Py.contains token (Py.lower (r_body r)).




(** ** Facts about the Python helpers *)

Lemma StronglySorted_weaken {A} (R S : A -> A -> Prop) (l : list A) :
  (forall x y, R x y -> S x y) -> StronglySorted R l -> StronglySorted S l.
Proof.
  intros HRS. induction 1 as [|x l Hl IH Hx]; constructor; [done|].
  eapply Forall_impl; [exact Hx|]. auto.
Qed.

Lemma StronglySorted_take {A} (R : A -> A -> Prop) (l : list A) (n : nat) :
  StronglySorted R l -> StronglySorted R (take n l).
Proof.
  intros Hs. revert n. induction Hs as [|x l Hl IH Hx]; intros [|n]; simpl;
    try constructor; [apply IH|].
  apply Forall_forall. intros y Hy. rewrite Forall_forall in Hx.
  apply Hx. eapply elem_of_sublist; [exact Hy|apply sublist_take].
Qed.



Section SortDesc.

Context {A : Type} (geb : A -> A -> bool).

Definition before (x y : A) : Prop := geb x y = true.

Hypothesis geb_total : forall x y, geb x y = false -> geb y x = true.
Hypothesis geb_trans : forall x y z, before x y -> before y z -> before x z.

Lemma insert_desc_perm (x : A) (l : list A) : Py.insert_desc geb x l ≡ₚ x :: l.
Proof.
  induction l as [|y l IH]; simpl; [done|].
  destruct (geb x y); [done|]. rewrite IH. apply Permutation_swap.
Qed.

Lemma sort_desc_perm (l : list A) : Py.sort_desc geb l ≡ₚ l.
Proof.
  induction l as [|x l IH]; simpl; [done|].
  rewrite insert_desc_perm. by f_equiv.
Qed.

Lemma insert_desc_sorted (x : A) (l : list A) :
  StronglySorted before l -> StronglySorted before (Py.insert_desc geb x l).
Proof.
  induction 1 as [|y l Hl IH Hy]; simpl.
  - repeat constructor.
  - destruct (geb x y) eqn:E.
    + constructor; [by constructor|]. constructor; [done|].
      eapply Forall_impl; [exact Hy|]. intros z Hz. by eapply geb_trans.
    + constructor; [done|]. rewrite insert_desc_perm.
      constructor; [|done]. by apply geb_total.
Qed.

Lemma sort_desc_sorted (l : list A) : StronglySorted before (Py.sort_desc geb l).
Proof.
  induction l as [|x l IH]; simpl; [constructor|].
  by apply insert_desc_sorted.
Qed.

Lemma sorted_app_before (l1 l2 : list A) (x y : A) :
  StronglySorted before (l1 ++ l2) -> x ∈ l1 -> y ∈ l2 -> before x y.
Proof.
  induction l1 as [|z l1 IH]; simpl; intros Hs Hx Hy.
  - by apply elem_of_nil in Hx.
  - apply StronglySorted_inv in Hs as [Hs Hz].
    apply elem_of_cons in Hx as [->|Hx]; [|by apply IH].
    rewrite Forall_forall in Hz. apply Hz, elem_of_app. by right.
Qed.

End SortDesc.


Lemma elem_of_List_filter {A} (q : A -> bool) (l : list A) (x : A) :
  x ∈ List.filter q l <-> x ∈ l /\ q x = true.
Proof. rewrite !list_elem_of_In. apply filter_In. Qed.

Lemma slice_to_subseteq {A} (l : list A) (n : Z) (x : A) :
  x ∈ Py.slice_to l n -> x ∈ l.
Proof.
  unfold Py.slice_to.
  case_decide; intros Hx; eapply elem_of_sublist; eauto using sublist_take.
Qed.


Section Search.

Import Py.

Variable V : Type.
(** [SentenceTransformer.encode]. *)
Variable encode : list string -> list V.
(** [index.search(queries, k)] on the stored vectors: the rows [distances[0]]
    and [indices[0]] of its two arrays. *)
Variable index_search : list V -> list V -> Z -> list Q * list Z.
(** [re.compile(regex)] succeeds; [re.search(regex, text)] finds a match. *)
Variable re_valid : string -> bool.
Variable re_search : string -> string -> bool.
(** [datetime.fromisoformat(s).replace(tzinfo=None)] and
    [datetime.strptime(s, format)]; [None] stands for [ValueError]. *)
Variable fromisoformat : string -> option datetime.
Variable strptime : string -> string -> option datetime.

(** [SearchManager._parse_date] on a value read from the table.  (The cursor
    never returns a [datetime], so the [isinstance] branch is not taken; on
    [None], an [int] or a [float] the call [date_str.replace] raises
    [AttributeError], which the handlers for [ValueError] and [TypeError] do
    not catch.) *)
Definition _parse_date (date_str : sql_date) : outcome datetime :=
  match date_str with
  | DateNull => Raise AttributeError
  | DateNumber _ => Raise AttributeError
  | DateText s =>
      match fromisoformat (replace_char "Z" "+00:00" s) with
      | Some parsed => Ok parsed
      | None =>
          match strptime s "%Y-%m-%d %H:%M:%S" with
          | Some d => Ok d
          | None =>
              match strptime (String.substring 0 10 s) "%Y-%m-%d" with
              | Some d => Ok d
              | None => Ok datetime_min
              end
          end
      end
  end.

(** The loop that turns the neighbours into uids. *)
Fixpoint collect_uids (faiss_id_to_uid : gmap string string) (indices : list Z)
  : list string :=
  match indices with
  | [] => []
  | idx :: rest =>
      if decide (idx = -1) then collect_uids faiss_id_to_uid rest
      else
        match faiss_id_to_uid !! Py.str idx with
        | Some u =>
            if String.eqb u "" then collect_uids faiss_id_to_uid rest
            else u :: collect_uids faiss_id_to_uid rest
        | None => collect_uids faiss_id_to_uid rest
        end
  end.

(** The dictionary [{email[0]: email for email in emails}]. *)
Definition uid_to_email (emails : list row) : gmap string row :=
  fold_left (fun m r => <[r_uid r := r]> m) emails ∅.

Definition _fetch_metadata_for_uids (t : table) (uids : list string)
    (distances : list Q) : list result :=
  let by_uid := uid_to_email (select_uids uids t) in
  omap (fun iu =>
          match by_uid !! snd iu with
          | Some r =>
              let similarity_score :=
                match distances !! Z.to_nat (fst iu) with
                | Some d => (1 - d)%Q
                | None => 0%Q
                end in
              Some (make_result r similarity_score)
          | None => None
          end)
       (enumerate uids).

(** The four filters, in the order of the source. *)
Definition filter_date_after (date_after : option string) (results : list result)
  : outcome (list result) :=
  if truthy date_after then
    match strptime (default "" date_after) "%Y-%m-%d" with
    | None => Raise ValueError
    | Some after_date =>
        filter_raising
          (fun e => bind (_parse_date (res_date e))
                         (fun d => Ok (datetime_leb after_date d)))
          results
    end
  else Ok results.

Definition filter_date_before (date_before : option string) (results : list result)
  : outcome (list result) :=
  if truthy date_before then
    match strptime (default "" date_before) "%Y-%m-%d" with
    | None => Raise ValueError
    | Some before_date =>
        filter_raising
          (fun e => bind (_parse_date (res_date e))
                         (fun d => Ok (datetime_leb d before_date)))
          results
    end
  else Ok results.

Definition filter_sender (sender : option string) (results : list result)
  : list result :=
  if truthy sender then
    List.filter (fun e => contains (lower (default "" sender))
                                   (lower (res_sender e))) results
  else results.

Definition filter_regex (regex : option string) (results : list result)
  : outcome (list result) :=
  if truthy regex then
    if re_valid (default "" regex) then
      Ok (List.filter (fun e => re_search (default "" regex) (body_preview e))
                      results)
    else Raise ReError
  else Ok results.

(** [SearchManager.search_emails_enhanced]: the events it causes and its
    value.  [m] is the embedding manager, [t] the table behind the metadata
    store. *)
Definition search_emails_enhanced (m : EmbeddingManager V) (t : table)
    (query : string) (date_after date_before sender regex : option string)
    (limit : Z) : list event * outcome (list result) :=
  let query_embedding := encode [query] in
  let '(distances, indices) := index_search (index m) query_embedding limit in
  let uids := collect_uids (faiss_id_to_uid m) indices in
  let trace := [ModelEncode [query]; IndexSearch limit] in
  match uids with
  | [] => (trace, Ok [])
  | _ =>
      (trace ++ [DbSelectUids uids],
       let results := _fetch_metadata_for_uids t uids distances in
       bind (filter_date_after date_after results) (fun results =>
       bind (filter_date_before date_before results) (fun results =>
       let results := filter_sender sender results in
       bind (filter_regex regex results) (fun results =>
       let results := sort_desc score_geb results in
       Ok (slice_to results limit)))))
  end.

(** [SearchManager.search_emails]. *)
Definition search_emails (m : EmbeddingManager V) (t : table)
    (query : string) (date_after regex : option string) (limit : Z)
  : list event * outcome (list result) :=
  search_emails_enhanced m t query date_after None None regex limit.

(** An entry of [EmbeddingManager.search_similar_emails]. *)
Record neighbour := {
  nb_uid : string;
  nb_similarity_score : Q;
  nb_distance : Q
}.

Fixpoint neighbours (faiss_id_to_uid : gmap string string)
    (hits : list (Q * Z)) : list neighbour :=
  match hits with
  | [] => []
  | (distance, idx) :: rest =>
      if decide (idx = -1) then neighbours faiss_id_to_uid rest
      else
        match faiss_id_to_uid !! Py.str idx with
        | Some u =>
            if String.eqb u "" then neighbours faiss_id_to_uid rest
            else {| nb_uid := u; nb_similarity_score := (1 - distance)%Q;
                    nb_distance := distance |}
                 :: neighbours faiss_id_to_uid rest
        | None => neighbours faiss_id_to_uid rest
        end
  end.

(** [EmbeddingManager.search_similar_emails]. *)
Definition search_similar_emails (m : EmbeddingManager V) (query : string)
    (k : Z) : list event * list neighbour :=
  if decide (ntotal m = 0) then ([], [])
  else
    let query_embedding := encode [query] in
    let '(distances, indices) := index_search (index m) query_embedding k in
    ([ModelEncode [query]; IndexSearch k],
     neighbours (faiss_id_to_uid m) (zip distances indices)).

(** [SearchManager._calculate_keyword_relevance]. *)
Definition _calculate_keyword_relevance (query subject body : string) : Q :=
  let keywords := split (lower query) in
  let subject_lower := lower subject in
  let body_lower := lower body in
  let score :=
    fold_left
      (fun score keyword =>
         let score := if contains keyword subject_lower then (score + 2)%Q else score in
         if contains keyword body_lower then (score + 1)%Q else score)
      keywords 0%Q in
  match keywords with
  | [] => 0%Q
  | _ => (score / inject_Z (Z.of_nat (length keywords)))%Q
  end.

(** The loop over the fetched rows: the pattern filter (on the whole body)
    and the score. *)
Definition keyword_row (query : string) (regex : option string) (r : row)
  : outcome (option result) :=
  if truthy regex then
    if re_valid (default "" regex) then
      if re_search (default "" regex) (r_body r)
      then Ok (Some (make_result r
                       (_calculate_keyword_relevance query (r_subject r) (r_body r))))
      else Ok None
    else Raise ReError
  else Ok (Some (make_result r
                   (_calculate_keyword_relevance query (r_subject r) (r_body r)))).

Fixpoint keyword_rows (query : string) (regex : option string) (emails : list row)
  : outcome (list result) :=
  match emails with
  | [] => Ok []
  | r :: emails' =>
      bind (keyword_row query regex r) (fun x =>
      bind (keyword_rows query regex emails') (fun rest =>
      Ok (match x with Some res => res :: rest | None => rest end)))
  end.

(** SQLite's reading of a text as a number. *)
Variable numeric_literal : string -> option sql_number.

(** [SearchManager.keyword_fallback_search]. *)
Definition keyword_fallback_search (t : table) (query : string)
    (date_after regex : option string) (limit : Z)
  : list event * outcome (list result) :=
  let keywords := split (lower query) in
  let emails := select_keywords numeric_literal keywords date_after limit t in
  ([DbSelectKeywords keywords date_after limit],
   bind (keyword_rows query regex emails) (fun results =>
   Ok (sort_desc score_geb results))).

(** *** Neighbours without an Identity Map entry *)





Lemma uid_to_email_lookup (emails : list row) (u : string) (r : row) :
  uid_to_email emails !! u = Some r -> r ∈ emails /\ r_uid r = u.
Proof.
  unfold uid_to_email.
  assert (G : forall (m0 : gmap string row),
    fold_left (fun m r => <[r_uid r := r]> m) emails m0 !! u = Some r ->
    (r ∈ emails /\ r_uid r = u) \/ m0 !! u = Some r).
  { induction emails as [|r0 emails IH]; simpl; intros m0 Hl; [by right|].
    destruct (IH _ Hl) as [[Hin Hu]|Hm0].
    - left. split; [by apply list_elem_of_further|done].
    - destruct (decide (r_uid r0 = u)) as [Heq|Hne].
      + rewrite <- Heq, lookup_insert_eq in Hm0. injection Hm0 as ->.
        left. split; [apply list_elem_of_here|done].
      + rewrite lookup_insert_ne in Hm0 by done. by right. }
  intros Hl. destruct (G ∅ Hl) as [?|Habs]; [done|].
  by rewrite lookup_empty in Habs.
Qed.



Lemma filter_raising_elem {A} (p : A -> outcome bool) (l rs : list A) (x : A) :
  filter_raising p l = Ok rs -> (x ∈ rs <-> x ∈ l /\ p x = Ok true).
Proof.
  revert rs. induction l as [|y l IH]; simpl; intros rs Hf.
  - injection Hf as <-. split; [|tauto]. intros H'. by apply elem_of_nil in H'.
  - destruct (p y) as [keep|e] eqn:Ey; simpl in Hf; [|done].
    destruct (filter_raising p l) as [rest|e] eqn:El; simpl in Hf; [|done].
    injection Hf as <-. specialize (IH rest eq_refl).
    destruct keep.
    + rewrite !elem_of_cons, IH. split.
      * intros [->|[? ?]]; [by split; [left|]|by split; [right|]].
      * intros [[->|?] ?]; [by left|by right].
    + rewrite elem_of_cons, IH. split; [intros [? ?]; by split; [right|]|].
      intros [[->|?] Hp]; [congruence|done].
Qed.









(** *** The empty index *)


(** *** Stored dates that no format parses *)

Ltac lex_unfold :=
  unfold datetime_valid, datetime_leb, datetime_fields, datetime_min;
  cbn [lex_leb year month day hour minute second microsecond].

Ltac lex_cases :=
  repeat match goal with
  | |- context [(?a <? ?b)] =>
      destruct (Z.ltb_spec a b); cbn [orb andb]; try reflexivity; try lia
  | |- context [(?a =? ?b)] =>
      destruct (Z.eqb_spec a b); cbn [orb andb]; try reflexivity; try lia
  | H : context [(?a <? ?b)] |- _ =>
      destruct (Z.ltb_spec a b); cbn [orb andb] in H; try discriminate; try lia
  | H : context [(?a =? ?b)] |- _ =>
      destruct (Z.eqb_spec a b); cbn [orb andb] in H; try discriminate; try lia
  end.

Lemma datetime_min_least (d : datetime) :
  datetime_valid d -> datetime_leb datetime_min d = true.
Proof.
  destruct d as [y mo da h mi s us].
  lex_unfold. intros (? & ? & ? & ? & ? & ? & ?). lex_cases.
Qed.

Lemma datetime_leb_min (d : datetime) :
  datetime_valid d -> datetime_leb d datetime_min = true -> d = datetime_min.
Proof.
  destruct d as [y mo da h mi s us].
  lex_unfold. intros (? & ? & ? & ? & ? & ? & ?) Hle. lex_cases. by subst.
Qed.

Lemma datetime_leb_refl (d : datetime) : datetime_leb d d = true.
Proof.
  destruct d as [y mo da h mi s us].
  lex_unfold. lex_cases.
Qed.

(** None of the three formats of [_parse_date] reads [s]. *)
Definition unparsable (s : string) : Prop :=
  fromisoformat (replace_char "Z" "+00:00" s) = None /\
  strptime s "%Y-%m-%d %H:%M:%S" = None /\
  strptime (String.substring 0 10 s) "%Y-%m-%d" = None.

Lemma _parse_date_unparsable (s : string) :
  unparsable s -> _parse_date (DateText s) = Ok datetime_min.
Proof. intros (H1 & H2 & H3). simpl. by rewrite H1, H2, H3. Qed.

Lemma truthy_Some (s : string) : s ≠ "" -> truthy (Some s) = true.
Proof. intros Hs. simpl. by apply negb_true_iff, String.eqb_neq. Qed.

(** C10, as the code has it.  A candidate whose stored date is a text that
    none of the supported formats parses (the empty text of an absent date
    included) counts as [datetime.min]: with a lower bound [date_after] it is
    kept exactly when the bound is itself 0001-01-01, the minimum, and is
    excluded for every later bound; it passes every upper bound
    [date_before]. *)
Theorem unparsable_date_is_minimum (s bound : string) (d : datetime)
    (r : result) (results rs : list result) :
  unparsable s ->
  res_date r = DateText s ->
  bound ≠ "" ->
  strptime bound "%Y-%m-%d" = Some d ->
  datetime_valid d ->
  _parse_date (res_date r) = Ok datetime_min
  /\ (filter_date_after (Some bound) results = Ok rs ->
        (r ∈ rs <-> r ∈ results /\ d = datetime_min))
  /\ (filter_date_before (Some bound) results = Ok rs ->
        (r ∈ rs <-> r ∈ results)).
Proof using fromisoformat strptime.
  clear re_valid re_search numeric_literal. intros Hs Hr Hbound Hd Hvalid.
  assert (Hp : _parse_date (res_date r) = Ok datetime_min)
    by (rewrite Hr; by apply _parse_date_unparsable).
  split; [done|]. split.
  - unfold filter_date_after. rewrite truthy_Some by done. simpl. rewrite Hd.
    intros Hf. rewrite (filter_raising_elem _ _ _ r Hf), Hp. simpl.
    split; intros [Hin Hk]; (split; [done|]).
    + injection Hk as Hk. by apply datetime_leb_min.
    + subst d. by rewrite datetime_leb_refl.
  - unfold filter_date_before. rewrite truthy_Some by done. simpl. rewrite Hd.
    intros Hf. rewrite (filter_raising_elem _ _ _ r Hf), Hp. simpl.
    rewrite datetime_min_least by done. tauto.
Qed.

(** *** The keyword fallback *)

Lemma text_geb_total (x y : string) : text_geb x y = false -> text_geb y x = true.
Proof.
  unfold text_geb. rewrite (String.compare_antisym x y).
  by destruct (String.compare y x).
Qed.

Lemma text_geb_trans (x y z : string) :
  text_geb x y = true -> text_geb y z = true -> text_geb x z = true.
Proof.
  unfold text_geb. revert y z.
  induction x as [|a x IH]; intros [|b y] [|c z]; simpl; try done.
  unfold Ascii.compare.
  destruct (N.compare_spec (N_of_ascii a) (N_of_ascii b));
    destruct (N.compare_spec (N_of_ascii b) (N_of_ascii c));
    destruct (N.compare_spec (N_of_ascii a) (N_of_ascii c));
    try done; try lia; apply IH.
Qed.

Lemma number_leb_total (a b : sql_number) :
  number_leb a b = false -> number_leb b a = true.
Proof.
  destruct a as [x|[]], b as [y|[]]; simpl; try done.
  intros Hf. apply Qle_bool_iff.
  destruct (Qlt_le_dec y x) as [Hlt|Hle]; [by apply Qlt_le_weak|].
  apply Qle_bool_iff in Hle. congruence.
Qed.

Lemma number_leb_trans (a b c : sql_number) :
  number_leb a b = true -> number_leb b c = true -> number_leb a c = true.
Proof.
  destruct a as [x|[]], b as [y|[]], c as [z|[]]; simpl; try done.
  rewrite !Qle_bool_iff. apply Qle_trans.
Qed.

Lemma date_geb_total (x y : row) : date_geb x y = false -> date_geb y x = true.
Proof.
  unfold date_geb. destruct (r_date x), (r_date y); try done.
  - apply number_leb_total.
  - apply text_geb_total.
Qed.

Lemma date_geb_trans (x y z : row) :
  date_geb x y = true -> date_geb y z = true -> date_geb x z = true.
Proof.
  unfold date_geb. destruct (r_date x), (r_date y), (r_date z); try done.
  - intros Hxy Hyz. by apply (number_leb_trans _ _ _ Hyz Hxy).
  - apply text_geb_trans.
Qed.

Lemma score_geb_total (x y : result) : score_geb x y = false -> score_geb y x = true.
Proof.
  unfold score_geb. intros Hf. apply Qle_bool_iff.
  destruct (Qlt_le_dec (similarity_score x) (similarity_score y)) as [Hlt|Hle].
  - by apply Qlt_le_weak.
  - apply Qle_bool_iff in Hle. congruence.
Qed.

Lemma score_geb_trans (x y z : result) :
  score_geb x y = true -> score_geb y z = true -> score_geb x z = true.
Proof.
  unfold score_geb. rewrite !Qle_bool_iff. intros Hxy Hyz.
  by eapply Qle_trans.
Qed.

(** The pattern filter of the fallback: no pattern, or a match in [text]. *)
Definition pattern_ok (regex : option string) (text : string) : bool :=
  negb (truthy regex) || re_search (default "" regex) text.

Definition keyword_result (query : string) (r : row) : result :=
  make_result r (_calculate_keyword_relevance query (r_subject r) (r_body r)).


(** The score as a count: two per keyword found in the subject, one per
    keyword found in the body, over the number of keywords. *)
Lemma _calculate_keyword_relevance_counts (query subject body : string) :
  let keywords := split (lower query) in
  let in_subject :=
    length (List.filter (fun k => contains k (lower subject)) keywords) in
  let in_body :=
    length (List.filter (fun k => contains k (lower body)) keywords) in
  keywords ≠ [] ->
  (_calculate_keyword_relevance query subject body
   == inject_Z (2 * Z.of_nat in_subject + Z.of_nat in_body)
      / inject_Z (Z.of_nat (length keywords)))%Q.
Proof.
  intros keywords in_subject in_body Hne.
  unfold _calculate_keyword_relevance. fold keywords.
  subst in_subject in_body.
  destruct keywords as [|k0 ks] eqn:E; [done|]. rewrite <- E. clear E Hne.
  apply Qdiv_comp; [|reflexivity].
  assert (G : forall (acc : Q),
    (fold_left
       (fun score keyword =>
          let score := if contains keyword (lower subject)
                       then (score + 2)%Q else score in
          if contains keyword (lower body) then (score + 1)%Q else score)
       keywords acc
     == acc + inject_Z
          (2 * Z.of_nat (length (List.filter
                   (fun k => contains k (lower subject)) keywords))
           + Z.of_nat (length (List.filter
                   (fun k => contains k (lower body)) keywords))))%Q).
  { induction keywords as [|k ks' IH]; intros acc; cbn [fold_left].
    - change (acc == acc + 0)%Q. ring.
    - rewrite IH. cbn [List.filter].
      set (a := List.filter (fun k => contains k (lower subject)) ks').
      set (b := List.filter (fun k => contains k (lower body)) ks').
      destruct (contains k (lower subject)), (contains k (lower body));
        cbn [length]; rewrite ?Nat2Z.inj_succ.
      + replace (2 * Z.succ (Z.of_nat (length a)) + Z.succ (Z.of_nat (length b)))
          with (2 * Z.of_nat (length a) + Z.of_nat (length b) + 3) by lia.
        rewrite (inject_Z_plus _ 3). change (inject_Z 3) with 3%Q. ring.
      + replace (2 * Z.succ (Z.of_nat (length a)) + Z.of_nat (length b))
          with (2 * Z.of_nat (length a) + Z.of_nat (length b) + 2) by lia.
        rewrite (inject_Z_plus _ 2). change (inject_Z 2) with 2%Q. ring.
      + replace (2 * Z.of_nat (length a) + Z.succ (Z.of_nat (length b)))
          with (2 * Z.of_nat (length a) + Z.of_nat (length b) + 1) by lia.
        rewrite (inject_Z_plus _ 1). change (inject_Z 1) with 1%Q. ring.
      + reflexivity. }
  rewrite G. apply Qplus_0_l.
Qed.




End Search.

(** ** imap_client.py and main.py: the Invalidation Controller *)

(** What [self.mail.status(folder, '(UIDVALIDITY)')] comes to: the call
    raises, the status is not ['OK'], the response has no [UIDVALIDITY <n>],
    or it has one. *)
Inductive status_reply :=
| StatusRaises
| StatusNotOK
| StatusNoMatch
| StatusUidValidity (n : Z).

(** [uidvalidity.txt]: absent, present with a content that [int] rejects, or
    holding an integer. *)
Inductive uidvalidity_file :=
| NoFile
| Garbled
| Holds (n : Z).

Definition _load_last_uid_validity (f : uidvalidity_file) : option Z :=
  match f with
  | NoFile => None
  | Garbled => None
  | Holds n => Some n
  end.

Definition _save_current_uid_validity (uid_validity : Z) (f : uidvalidity_file)
  : uidvalidity_file :=
  Holds uid_validity.

(** [IMAPClient.check_uid_validity]: its value and the file afterwards. *)
Definition check_uid_validity (reply : status_reply) (f : uidvalidity_file)
  : bool * uidvalidity_file :=
  match reply with
  | StatusRaises => (false, f)
  | StatusNotOK => (false, f)
  | StatusNoMatch => (false, f)
  | StatusUidValidity current_uidvalidity =>
      match _load_last_uid_validity f with
      | None => (false, _save_current_uid_validity current_uidvalidity f)
      | Some last_known_uidvalidity =>
          if decide (current_uidvalidity ≠ last_known_uidvalidity)
          then (true, _save_current_uid_validity current_uidvalidity f)
          else (false, f)
      end
  end.

Section Invalidation.

Variable V : Type.
Variable encode : list string -> list V.
Variable numeric_literal : string -> option sql_number.

(** Everything the program keeps between runs. *)
Record world := {
  w_files : files V;
  w_uidvalidity : uidvalidity_file;
  w_table : table
}.

(** [main.fetch_emails] up to the fetch: the UIDVALIDITY check and, when it
    reports a change, the wipe. *)
Definition fetch_emails_check (reply : status_reply) (w : world) : world :=
  let '(uid_validity_changed, f) := check_uid_validity reply (w_uidvalidity w) in
  if uid_validity_changed then
    let t := clear (w_table w) in
    let '(embedding_manager, fs) := EmbeddingManager_init V (w_files w) in
    let '(_, fs) := clear_index V embedding_manager fs in
    {| w_files := fs; w_uidvalidity := f; w_table := t |}
  else
    {| w_files := w_files w; w_uidvalidity := f; w_table := w_table w |}.

(** [main.fetch_emails]; [fetched_emails] is what [imap_client.fetch_emails]
    returns. *)
Definition fetch_emails (reply : status_reply) (fetched_emails : list email)
    (w : world) : world :=
  let w1 := fetch_emails_check reply w in
  match fetched_emails with
  | [] => w1
  | _ =>
      let t := update_emails numeric_literal fetched_emails (w_table w1) in
      let '(embedding_manager, fs) := EmbeddingManager_init V (w_files w1) in
      let '(_, fs) := embed_emails V encode embedding_manager fetched_emails fs in
      {| w_files := fs; w_uidvalidity := w_uidvalidity w1; w_table := t |}
  end.

(** The state right after a wipe. *)
Definition wiped (current : Z) : world :=
  {| w_files := {| faiss_index_bin := Some []; faiss_mapping_json := Some (∅, ∅) |};
     w_uidvalidity := Holds current;
     w_table := [] |}.

(** C8. On a fetch cycle that observes the generation token [current]:
    - if a token is persisted and differs from [current], the Metadata Store,
      the Identity Map and the Vector Index are all reset to empty and
      [current] is persisted;
    - if the persisted token equals [current], nothing changes;
    - if no token is persisted (first observation), [current] is persisted
      and the stores are left as they are: no wipe.
    The manager built from the files after a wipe is empty and consistent. *)
Theorem generation_reset (current : Z) (w : world) :
  let w' := fetch_emails_check (StatusUidValidity current) w in
  match w_uidvalidity w with
  | Holds last =>
      if decide (current = last) then w' = w
      else w' = wiped current
           /\ let m := fst (EmbeddingManager_init V (w_files w')) in
              index m = [] /\ uid_to_faiss_id m = ∅ /\ faiss_id_to_uid m = ∅
  | NoFile =>
      w_uidvalidity w' = Holds current
      /\ w_table w' = w_table w /\ w_files w' = w_files w
  | Garbled =>
      w_uidvalidity w' = Holds current
      /\ w_table w' = w_table w /\ w_files w' = w_files w
  end.
Proof.
  destruct w as [fs f t]. unfold fetch_emails_check, check_uid_validity.
  destruct f as [| |last]; simpl; [done|done|].
  destruct (decide (current ≠ last)) as [Hne|Heq].
  - rewrite decide_False by done.
    unfold EmbeddingManager_init, _load_or_create_index.
    destruct (faiss_index_bin fs) as [stored|]; simpl; done.
  - apply dec_stable in Heq. subst. by rewrite decide_True.
Qed.

End Invalidation.

Arguments w_files {V} _.
Arguments w_uidvalidity {V} _.
Arguments w_table {V} _.

(** ** Deterministic stand-ins for the external libraries *)

Module Fake.

Import Py.

(** A vector is a number, the embedding of a text its length. *)
Definition V : Type := nat.

Definition encode (texts : list string) : list V := map String.length texts.

Lemma encode_length (texts : list string) : length (encode texts) = length texts.
Proof. apply length_map. Qed.

(** A flat index: the [k] slots are filled with the positions [0], [1], ...
    while there are vectors, at distance [i/10], and with the label [-1]
    after that. *)
Definition index_search (vecs : list V) (queries : list V) (k : Z)
  : list Q * list Z :=
  let n := Z.of_nat (length vecs) in
  (map (fun i => if decide (i < n) then (i # 10)%Q else (1000 # 1)%Q) (seqZ 0 k),
   map (fun i => if decide (i < n) then i else -1) (seqZ 0 k)).


(** Patterns without metacharacters: every pattern compiles, and it is found
    where it occurs. *)
Definition re_valid (regex : string) : bool := true.
Definition re_search (regex text : string) : bool := contains regex text.

(** [strptime] for zero-padded fields under the directives [%Y], [%m], [%d],
    [%H], [%M] and [%S]. *)
Definition digit (c : ascii) : option Z :=
  let n := nat_of_ascii c in
  if (48 <=? n)%nat && (n <=? 57)%nat then Some (Z.of_nat n - 48) else None.

Fixpoint read_digits (n : nat) (acc : Z) (s : string) : option (Z * string) :=
  match n with
  | O => Some (acc, s)
  | S n' =>
      match s with
      | EmptyString => None
      | String c s' =>
          match digit c with
          | Some d => read_digits n' (10 * acc + d) s'
          | None => None
          end
      end
  end.

Definition set_field (directive : ascii) (v : Z) (d : datetime) : option datetime :=
  let between lo hi := (lo <=? v) && (v <=? hi) in
  if Ascii.eqb directive "Y" then
    if between 1 9999 then
      Some {| year := v; month := month d; day := day d; hour := hour d;
              minute := minute d; second := second d;
              microsecond := microsecond d |}
    else None
  else if Ascii.eqb directive "m" then
    if between 1 12 then
      Some {| year := year d; month := v; day := day d; hour := hour d;
              minute := minute d; second := second d;
              microsecond := microsecond d |}
    else None
  else if Ascii.eqb directive "d" then
    if between 1 31 then
      Some {| year := year d; month := month d; day := v; hour := hour d;
              minute := minute d; second := second d;
              microsecond := microsecond d |}
    else None
  else if Ascii.eqb directive "H" then
    if between 0 23 then
      Some {| year := year d; month := month d; day := day d; hour := v;
              minute := minute d; second := second d;
              microsecond := microsecond d |}
    else None
  else if Ascii.eqb directive "M" then
    if between 0 59 then
      Some {| year := year d; month := month d; day := day d; hour := hour d;
              minute := v; second := second d;
              microsecond := microsecond d |}
    else None
  else if Ascii.eqb directive "S" then
    if between 0 59 then
      Some {| year := year d; month := month d; day := day d; hour := hour d;
              minute := minute d; second := v;
              microsecond := microsecond d |}
    else None
  else None.

Fixpoint parse (format : string) (s : string) (d : datetime) : option datetime :=
  match format with
  | EmptyString => match s with EmptyString => Some d | _ => None end
  | String c format1 =>
      if Ascii.eqb c "%" then
        match format1 with
        | EmptyString => None
        | String directive format' =>
            let width := if Ascii.eqb directive "Y" then 4%nat else 2%nat in
            match read_digits width 0 s with
            | Some (v, rest) =>
                match set_field directive v d with
                | Some d' => parse format' rest d'
                | None => None
                end
            | None => None
            end
        end
      else
        match s with
        | EmptyString => None
        | String c' s' => if Ascii.eqb c c' then parse format1 s' d else None
        end
  end.

Definition days_in_month (y m : Z) : Z :=
  if (m =? 2) then
    if ((y mod 4 =? 0) && negb (y mod 100 =? 0)) || (y mod 400 =? 0)
    then 29 else 28
  else if (m =? 4) || (m =? 6) || (m =? 9) || (m =? 11) then 30
  else 31.

Definition strptime (s format : string) : option datetime :=
  match parse format s
          {| year := 1900; month := 1; day := 1; hour := 0; minute := 0;
             second := 0; microsecond := 0 |} with
  | Some d => if day d <=? days_in_month (year d) (month d) then Some d else None
  | None => None
  end.

(** [fromisoformat] for a date, alone or followed by [T] or a space and a
    time in seconds. *)
Definition fromisoformat (s : string) : option datetime :=
  match strptime s "%Y-%m-%d" with
  | Some d => Some d
  | None =>
      match strptime s "%Y-%m-%dT%H:%M:%S" with
      | Some d => Some d
      | None => strptime s "%Y-%m-%d %H:%M:%S"
      end
  end.

(** The numbers among the texts: the decimal integers, with or without a
    sign. *)
Fixpoint read_integer (acc : Z) (s : string) : option Z :=
  match s with
  | EmptyString => Some acc
  | String c s' =>
      match digit c with
      | Some d => read_integer (10 * acc + d) s'
      | None => None
      end
  end.

Definition numeric_literal (s : string) : option sql_number :=
  let unsigned (s : string) : option Z :=
    match s with
    | EmptyString => None
    | _ => read_integer 0 s
    end in
  match s with
  | EmptyString => None
  | String c s' =>
      if Ascii.eqb c "-" then
        option_map (fun n => NumberFinite (inject_Z (- n))) (unsigned s')
      else if Ascii.eqb c "+" then
        option_map (fun n => NumberFinite (inject_Z n)) (unsigned s')
      else option_map (fun n => NumberFinite (inject_Z n)) (unsigned s)
  end.

(** The program run on the stand-ins. *)
Definition search :=
  search_emails_enhanced V encode index_search re_valid re_search
    fromisoformat strptime.

Definition keyword_search :=
  keyword_fallback_search re_valid re_search numeric_literal.

Definition update_emails := update_emails numeric_literal.

(** A manager that has indexed [emails] from scratch. *)
Definition manager_of (emails : list email) : EmbeddingManager V :=
  fst (index_all V encode [emails] (EmbeddingManager_init V (no_files V))).

End Fake.

(** ** The claims of the specification as it words them *)

(** The keyword search of the specification: the records in which every
    token occurs in the subject or the body ([token_in]) and that pass the
    date and pattern filters, by descending score, cut to [limit]. *)
Definition keyword_search_claimed (re_search : string -> string -> bool)
    (numeric_literal : string -> option sql_number)
    (t : table) (query : string) (date_after regex : option string)
    (limit : Z) : list result :=
  let tokens := Py.split (Py.lower query) in
  let selected :=
    List.filter
      (fun r => forallb (fun k => token_in k r) tokens
                && (if Py.truthy date_after
                    then date_condition numeric_literal
                           (default "" date_after) r
                    else true)
                && pattern_ok re_search regex (r_body r)) t in
  take (Z.to_nat limit)
       (Py.sort_desc score_geb (map (keyword_result query) selected)).

(** ** Runs of the model *)

Ltac by_computation := refine (bool_decide_unpack _ _); vm_compute; exact I.

Module Scenario.

Import Py.

Definition mail (u subj b d : string) : email :=
  {| uid := u; subject := subj; sender := "sender@example.com";
     body := Some b; date := d;
     search_content := clean_email_for_search subj b |}.

Definition stored (u subj b d : string) : row :=
  row_of_email Fake.numeric_literal (mail u subj b d).

(** Three records with the uids "1", "2" and "3". *)
Definition three : list email :=
  [mail "1" "Test Email 1" "This is the first test email" "2025-07-13";
   mail "2" "Test Email 2" "This is the second test email" "2025-07-14";
   mail "3" "Test Email 3" "This is the third test email" "2025-07-15"].

(** A persisted index of one vector with an empty Identity Map. *)
Definition mismatched_files : files Fake.V :=
  {| faiss_index_bin := Some [7%nat]; faiss_mapping_json := Some (∅, ∅) |}.

Definition invoice : email :=
  mail "10" "Invoice 42" "Please pay the invoice by Friday." "2025-07-13".

(** An older record with the keyword in its subject and a newer one with the
    keyword in its body only. *)
Definition two_meetings : table :=
  [stored "old" "meeting" "agenda" "2025-01-01";
   stored "new" "hello" "meeting" "2025-02-01"].

Definition alphabet : table := [stored "x" "abc" "def" "2025-01-01"].

(** A body of 206 characters whose last six are a verification code. *)
Fixpoint repeat_string (n : nat) (c : ascii) : string :=
  match n with
  | O => EmptyString
  | S n' => String c (repeat_string n' c)
  end.

Definition long_body : string := repeat_string 200 "a" +:+ "123456".

Definition long_mail : email := mail "7" "Your code" long_body "2025-07-13".




Definition undated : email := mail "9" "Hello" "No usable date" "invalid-date".

End Scenario.

(** ** The scenarios of the specification, and where the code differs *)

Import Scenario.

(** C1 on the scenario of the specification: indexing the records "1", "2"
    and "3" gives an Identity Map of size 3 with the positions 0, 1 and 2 in
    input order. *)
Lemma identity_map_bijection_witness :
  let m := Fake.manager_of three in
  ntotal m = 3
  /\ size (uid_to_faiss_id m) = 3%nat
  /\ uid_to_faiss_id m !! "1" = Some 0
  /\ uid_to_faiss_id m !! "2" = Some 1
  /\ uid_to_faiss_id m !! "3" = Some 2
  /\ forall k u, faiss_id_to_uid m !! k = Some u ->
       exists i, k = Py.str i /\ uid_to_faiss_id m !! u = Some i.
Proof.
  assert (Hdistinct : Forall (fun emails => NoDup (map uid emails)) [three])
    by by_computation.
  destruct (identity_map_bijection Fake.V Fake.encode [three]
              Fake.encode_length Hdistinct)
    as (Hn & Hs1 & _ & _ & _ & Hbwd & Horder).
  split; [exact Hn|]. split; [exact Hs1|].
  split; [apply (Horder 0%nat "1"); reflexivity|].
  split; [apply (Horder 1%nat "2"); reflexivity|].
  split; [apply (Horder 2%nat "3"); reflexivity|].
  exact Hbwd.
Defined.

(** C3 fails on the code: a persisted index of one vector with an empty
    Identity Map is loaded as it is, and the manager goes on with the
    mismatched pair. *)
Lemma load_accepts_mismatched_pair :
  let m := fst (EmbeddingManager_init Fake.V mismatched_files) in
  length (index m) = 1%nat
  /\ size (uid_to_faiss_id m) = 0%nat
  /\ ~ is_consistent m.
Proof.
  split; [reflexivity|]. split; [reflexivity|].
  intros [H _]. vm_compute in H. discriminate.
Qed.

Lemma load_returns_persisted_pair_witness :
  EmbeddingManager_init Fake.V mismatched_files
  = ({| model_calls := []; index := [7%nat];
        uid_to_faiss_id := ∅; faiss_id_to_uid := ∅ |}, mismatched_files).
Proof.
  apply (load_returns_persisted_pair Fake.V mismatched_files [7%nat]).
  reflexivity.
Defined.

(** C4 fails on the code.  The record has the subject "Invoice 42" and the
    body "Please pay the invoice by Friday."; [_fetch_email_batch] accepts
    such an email ([validate_email_content]) and derives its search text from
    subject and body.  The oracle is handed the body, which is neither that
    search text nor the concatenation of subject and body. *)
Lemma oracle_text_is_not_search_text :
  let m := fst (embed_emails Fake.V Fake.encode
                  (fst (EmbeddingManager_init Fake.V (no_files Fake.V)))
                  [invoice] (no_files Fake.V)) in
  validate_email_content (subject invoice) (default "" (body invoice)) = true
  /\ search_content invoice
     = clean_email_for_search (subject invoice) (default "" (body invoice))
  /\ search_content invoice
     = "Invoice 42" +:+ String Py.newline "Please pay the invoice by Friday."
  /\ model_calls m = [["test"]; ["Please pay the invoice by Friday."]]
  /\ "Please pay the invoice by Friday." ≠ search_content invoice
  /\ "Please pay the invoice by Friday."
     ≠ subject invoice +:+ default "" (body invoice).
Proof.
  split; [reflexivity|]. split; [reflexivity|]. split; [reflexivity|].
  split; [reflexivity|]. split; discriminate.
Qed.


(** A keyword is a [LIKE] pattern: the query "a_c" selects a record that
    holds "abc" and not "a_c". *)
Example keyword_wildcards_are_patterns :
  (exists results,
      snd (Fake.keyword_search alphabet "a_c" None None 10) = Py.Ok results
      /\ map res_uid results = ["x"])
  /\ keyword_search_claimed Fake.re_search Fake.numeric_literal alphabet "a_c" None None 10 = [].
Proof.
  split; [eexists; split; [vm_compute; reflexivity|reflexivity]|].
  reflexivity.
Qed.


(** C6 on a body of 206 characters that ends with a code.  The pattern
    matches the body, yet the search with the pattern returns nothing, while
    the same search without it returns the record: the pattern is tried on
    the 200-character preview.  The keyword fallback, given the same table
    and pattern, tries it on the whole body and returns the record. *)
Theorem regex_filter_reads_preview :
  let m := Fake.manager_of [long_mail] in
  let t := Fake.update_emails [long_mail] [] in
  Fake.re_search "123456" long_body = true
  /\ Fake.re_search "123456" (preview long_body) = false
  /\ snd (Fake.search m t "code" None None None (Some "123456") 5) = Py.Ok []
  /\ (exists results,
        snd (Fake.search m t "code" None None None None 5) = Py.Ok results
        /\ map res_uid results = ["7"])
  /\ (exists results,
        snd (Fake.keyword_search t "code" None (Some "123456") 5) = Py.Ok results
        /\ map res_uid results = ["7"]).
Proof.
  split; [reflexivity|]. split; [reflexivity|]. split; [reflexivity|].
  split; eexists; (split; [vm_compute; reflexivity|reflexivity]).
Qed.



(** C10 fails on the code: with the lower bound 0001-01-01 a record whose
    stored date no format parses is kept. *)
Lemma undated_record_passes_minimum_bound :
  unparsable Fake.fromisoformat Fake.strptime "invalid-date"
  /\ exists results,
       snd (Fake.search (Fake.manager_of [undated]) (Fake.update_emails [undated] [])
              "hello" (Some "0001-01-01") None None None 5) = Py.Ok results
       /\ map res_uid results = ["9"].
Proof.
  split; [repeat split|].
  eexists. split; [vm_compute; reflexivity|reflexivity].
Qed.

Lemma unparsable_date_is_minimum_witness :
  let r := make_result (row_of_email Fake.numeric_literal undated) 1 in
  _parse_date Fake.fromisoformat Fake.strptime (res_date r) = Py.Ok datetime_min
  /\ (filter_date_after Fake.fromisoformat Fake.strptime (Some "2025-01-01") [r]
      = Py.Ok [] ->
      (r ∈ [] <-> r ∈ [r] /\
         {| year := 2025; month := 1; day := 1; hour := 0; minute := 0;
            second := 0; microsecond := 0 |} = datetime_min))
  /\ (filter_date_before Fake.fromisoformat Fake.strptime (Some "2025-01-01") [r]
      = Py.Ok [] -> (r ∈ [] <-> r ∈ [r])).
Proof.
  apply (unparsable_date_is_minimum Fake.fromisoformat Fake.strptime
           "invalid-date" "2025-01-01").
  - repeat split.
  - reflexivity.
  - discriminate.
  - reflexivity.
  - unfold datetime_valid. simpl. lia.
Defined.

(** * Further properties of the code *)

(** ** embedding.py *)

Section IndexerMore.

Variable V : Type.
Variable encode : list string -> list V.

Local Abbreviation manager := (EmbeddingManager V).

(** The loop at the end of [_embed_batch], started at the counter [j0]. *)
Lemma update_mappings_lookup (start_id : Z) (batch : list email) :
  forall (j0 : Z) (maps : gmap string Z * gmap string string),
    let maps' := fold_left
      (fun maps ie =>
         (<[uid (snd ie) := start_id + fst ie]> (fst maps),
          <[Py.str (start_id + fst ie) := uid (snd ie)]> (snd maps)))
      (Py.enumerate_from j0 batch) maps in
    (forall u, u ∉ map uid batch -> fst maps' !! u = fst maps !! u)
    /\ (forall k,
          (forall i : nat, (i < length batch)%nat ->
             k ≠ Py.str (start_id + (j0 + Z.of_nat i))) ->
          snd maps' !! k = snd maps !! k)
    /\ (forall (j : nat) e, batch !! j = Some e ->
          snd maps' !! Py.str (start_id + (j0 + Z.of_nat j)) = Some (uid e))
    /\ (forall (j : nat) e, batch !! j = Some e ->
          (forall (j' : nat) e', (j < j')%nat -> batch !! j' = Some e' ->
             uid e' ≠ uid e) ->
          fst maps' !! uid e = Some (start_id + (j0 + Z.of_nat j))).
Proof.
  induction batch as [|e0 batch IH]; intros j0 maps; simpl.
  - split; [done|]. split; [done|]. split; intros j e Hj; by rewrite lookup_nil in Hj.
  - destruct (IH (j0 + 1)
                (<[uid e0 := start_id + j0]> (fst maps),
                 <[Py.str (start_id + j0) := uid e0]> (snd maps)))
      as (Hu & Hk & Hpos & Hlast). simpl in Hu, Hk.
    split; [|split; [|split]].
    + intros u Hnot. rewrite Hu.
      * apply lookup_insert_ne. intros Heq. apply Hnot. rewrite <- Heq.
        apply list_elem_of_here.
      * intros Hin. apply Hnot. by apply list_elem_of_further.
    + intros k Hkeys. rewrite Hk.
      * apply lookup_insert_ne. intros <-. apply (Hkeys 0%nat); [lia|].
        f_equal. lia.
      * intros i Hi. replace (j0 + 1 + Z.of_nat i) with (j0 + Z.of_nat (S i)) by lia.
        apply Hkeys. lia.
    + intros [|j] e Hj; simpl in Hj.
      * injection Hj as <-. rewrite Hk.
        -- replace (j0 + Z.of_nat 0) with j0 by lia. apply lookup_insert_eq.
        -- intros i _ Heq. apply str_inj in Heq. lia.
      * replace (j0 + Z.of_nat (S j)) with (j0 + 1 + Z.of_nat j) by lia.
        by apply Hpos.
    + intros [|j] e Hj Hlater; simpl in Hj.
      * injection Hj as <-. rewrite Hu.
        -- replace (j0 + Z.of_nat 0) with j0 by lia. apply lookup_insert_eq.
        -- intros Hin. apply list_elem_of_fmap in Hin as (e' & Heq & Hin).
           apply list_elem_of_lookup_1 in Hin as [j' Hj'].
           apply (Hlater (S j') e'); [lia|done|done].
      * replace (j0 + Z.of_nat (S j)) with (j0 + 1 + Z.of_nat j) by lia.
        apply Hlast; [done|]. intros j' e' Hlt Hj'.
        apply (Hlater (S j') e'); [lia|done].
Qed.

(** X1. Whatever the state of the manager, [_embed_batch] gives the [j]-th
    record of the batch the position [index.ntotal + j], [ntotal] read
    before the append: the position-to-uid map holds that uid there, the
    uid-to-position map holds that position for the last record of the batch
    with a given uid, uids outside the batch keep their entry, and the
    entries of earlier positions are not touched. *)
Theorem _embed_batch_positions (m : manager) (batch : list email) :
  let m' := _embed_batch V encode m batch in
  (forall (j : nat) e, batch !! j = Some e ->
     faiss_id_to_uid m' !! Py.str (ntotal m + Z.of_nat j) = Some (uid e))
  /\ (forall (j : nat) e, batch !! j = Some e ->
        (forall (j' : nat) e', (j < j')%nat -> batch !! j' = Some e' ->
           uid e' ≠ uid e) ->
        uid_to_faiss_id m' !! uid e = Some (ntotal m + Z.of_nat j))
  /\ (forall u, u ∉ map uid batch ->
        uid_to_faiss_id m' !! u = uid_to_faiss_id m !! u)
  /\ (forall i, i < ntotal m ->
        faiss_id_to_uid m' !! Py.str i = faiss_id_to_uid m !! Py.str i).
Proof.
  intros m'.
  destruct (update_mappings_lookup (ntotal m) batch 0
              (uid_to_faiss_id m, faiss_id_to_uid m))
    as (Hu & Hk & Hpos & Hlast). simpl in Hu, Hk.
  split; [|split; [|split]].
  - intros j e Hj. specialize (Hpos j e Hj).
    by replace (0 + Z.of_nat j) with (Z.of_nat j) in Hpos by lia.
  - intros j e Hj Hlater. specialize (Hlast j e Hj Hlater).
    by replace (0 + Z.of_nat j) with (Z.of_nat j) in Hlast by lia.
  - exact Hu.
  - intros i Hi. apply Hk. intros n _ Heq. apply str_inj in Heq. lia.
Qed.

Lemma _embed_batch_index_length (m : manager) (batch : list email) :
  (forall l, length (encode l) = length l) ->
  length (index (_embed_batch V encode m batch))
  = (length (index m) + length batch)%nat.
Proof.
  intros Henc. simpl. rewrite length_app, Henc. unfold bodies.
  by rewrite length_map.
Qed.

Lemma fold_embed_batch_index_length (bs : list (list email)) :
  (forall l, length (encode l) = length l) ->
  forall m : manager,
    length (index (fold_left (_embed_batch V encode) bs m))
    = (length (index m) + length (concat bs))%nat.
Proof.
  intros Henc. induction bs as [|b bs IH]; intros m; simpl; [lia|].
  rewrite IH, _embed_batch_index_length, length_app by done. lia.
Qed.

Lemma size_list_to_set_le (l : list string) :
  (size (list_to_set l : gset string) <= length l)%nat.
Proof.
  induction l as [|x l IH]; [by rewrite list_to_set_nil, size_empty|].
  rewrite list_to_set_cons. cbn [length]. rewrite size_union_alt.
  assert (size (list_to_set l ∖ {[x]} : gset string)
          <= size (list_to_set l : gset string))%nat
    by (apply subseteq_size; set_solver).
  rewrite size_singleton. lia.
Qed.

Lemma size_list_to_set_NoDup (l : list string) :
  size (list_to_set l : gset string) = length l <-> NoDup l.
Proof.
  split; [|apply size_list_to_set].
  induction l as [|x l IH]; [constructor|].
  rewrite list_to_set_cons. cbn [length]. intros Hsize.
  assert (Hle := size_list_to_set_le l).
  destruct (decide (x ∈ l)) as [Hin|Hout].
  - exfalso.
    assert (({[x]} ∪ list_to_set l : gset string) = list_to_set l) as Heq
      by set_solver.
    rewrite Heq in Hsize. lia.
  - constructor; [done|]. apply IH.
    rewrite size_union, size_singleton in Hsize by set_solver. lia.
Qed.

Lemma embed_emails_new_dom (m : manager) (emails : list email) (fs : files V) :
  dom (uid_to_faiss_id (fst (embed_emails V encode m emails fs)))
  = dom (uid_to_faiss_id m) ∪ list_to_set (map uid (new_emails m emails)).
Proof.
  unfold embed_emails. destruct emails as [|e0 emails0]; [set_solver|].
  destruct (new_emails m (e0 :: emails0)) as [|e new] eqn:E; cbn [fst].
  - set_solver.
  - by rewrite fold_embed_batch_dom, concat_batches.
Qed.

Lemma embed_emails_index_length (m : manager) (emails : list email) (fs : files V) :
  (forall l, length (encode l) = length l) ->
  length (index (fst (embed_emails V encode m emails fs)))
  = (length (index m) + length (new_emails m emails))%nat.
Proof.
  intros Henc. unfold embed_emails.
  destruct emails as [|e0 emails0]; [simpl; lia|].
  destruct (new_emails m (e0 :: emails0)) as [|e new] eqn:E; cbn [fst].
  - simpl. lia.
  - by rewrite fold_embed_batch_index_length, concat_batches.
Qed.

(** X2. [embed_emails] appends one vector for every record it keeps, a uid
    that occurs twice among them included, while the uid-to-position map
    holds one entry per uid.  So, from a manager whose map and index have the
    same size, they have the same size afterwards exactly when the new
    records of the call have distinct uids. *)
Theorem embed_emails_repeated_uid (m : manager) (emails : list email)
    (fs : files V) :
  (forall l, length (encode l) = length l) ->
  size (uid_to_faiss_id m) = length (index m) ->
  let m' := fst (embed_emails V encode m emails fs) in
  length (index m') = (length (index m) + length (new_emails m emails))%nat
  /\ (size (uid_to_faiss_id m') = length (index m')
      <-> NoDup (map uid (new_emails m emails))).
Proof.
  intros Henc Hsize m'.
  assert (Hlen := embed_emails_index_length m emails fs Henc). fold m' in Hlen.
  split; [done|].
  assert (Hdom : size (uid_to_faiss_id m')
                 = (size (uid_to_faiss_id m)
                    + size (list_to_set (map uid (new_emails m emails))
                            : gset string))%nat).
  { rewrite <- !size_dom. unfold m'. rewrite embed_emails_new_dom.
    apply size_union. intros u Hu Hnew.
    apply elem_of_list_to_set, list_elem_of_fmap in Hnew as (e & -> & He).
    apply list_elem_of_filter in He as [Hfresh _].
    by apply not_elem_of_dom in Hfresh. }
  rewrite Hdom, Hlen, Hsize, <- size_list_to_set_NoDup, length_map. lia.
Qed.

(** The start offsets of the batches: their number is the ceiling of
    [(stop - start) / step], and each lies below [stop]. *)
Lemma range_step_count (stop step : nat) :
  (0 < step)%nat ->
  forall fuel start, (stop - start <= fuel)%nat ->
    let offsets := Py.range_step_from fuel start stop step in
    (stop - start <= step * length offsets)%nat
    /\ (step * length offsets < stop - start + step)%nat
    /\ Forall (fun i => (i < stop)%nat) offsets.
Proof.
  intros Hstep. induction fuel as [|fuel IH]; intros start Hfuel; simpl.
  - split; [lia|]. split; [lia|constructor].
  - case_decide as Hlt; simpl.
    + destruct (IH (start + step)%nat) as (H1 & H2 & H3); [lia|].
      assert (Hk : length (Py.range_step_from fuel (start + step) stop step) = 0%nat
                   \/ (step <= step * length (Py.range_step_from fuel
                                                 (start + step) stop step))%nat).
      { destruct (length _); [by left|right]. rewrite Nat.mul_succ_r. lia. }
      rewrite Nat.mul_succ_r. split; [lia|]. split; [|by constructor].
      destruct Hk as [Hk|Hk]; [rewrite Hk in *|]; lia.
    + split; [lia|]. split; [lia|constructor].
Qed.

Lemma batches_shape (l : list email) :
  let n := Config.EMBEDDING_BATCH_SIZE in
  (length l <= n * length (batches l))%nat
  /\ (n * length (batches l) < length l + n)%nat
  /\ Forall (fun b => (0 < length b <= n)%nat) (batches l).
Proof.
  intros n. unfold batches, Py.range_step. fold n.
  destruct (range_step_count (length l) n) with (fuel := length l) (start := 0%nat)
    as (H1 & H2 & H3); [unfold n, Config.EMBEDDING_BATCH_SIZE; lia|lia|].
  rewrite length_map. split; [lia|]. split; [lia|].
  apply Forall_fmap. eapply Forall_impl; [exact H3|].
  intros i Hi. simpl. unfold Py.slice.
  rewrite length_take, length_drop.
  unfold n, Config.EMBEDDING_BATCH_SIZE in *. lia.
Qed.

(** X3. During one [embed_emails] call the Embedding Oracle is called once
    per batch, never per record: for [n] new records there are
    [ceil (n / 64)] calls, each with at least one and at most 64 texts, and
    together they carry the body of every new record once, in input order. *)
Theorem oracle_called_once_per_batch (m : manager) (emails : list email)
    (fs : files V) :
  let m' := fst (embed_emails V encode m emails fs) in
  let n := length (new_emails m emails) in
  exists calls,
    model_calls m' = model_calls m ++ calls
    /\ (n <= 64 * length calls)%nat
    /\ (64 * length calls < n + 64)%nat
    /\ Forall (fun texts => (0 < length texts <= 64)%nat) calls
    /\ concat calls = bodies (new_emails m emails).
Proof.
  intros m' n. exists (map bodies (batches (new_emails m emails))).
  destruct (oracle_receives_bodies V encode m emails fs) as [Hcalls Hconcat].
  destruct (batches_shape (new_emails m emails)) as (H1 & H2 & H3).
  rewrite length_map. unfold Config.EMBEDDING_BATCH_SIZE in *.
  split; [done|]. split; [done|]. split; [done|]. split; [|done].
  apply Forall_fmap. eapply Forall_impl; [exact H3|].
  intros b Hb. simpl. unfold bodies. by rewrite length_map.
Qed.

(** Two managers with the same index and the same maps. *)
Definition same_pair (m1 m2 : manager) : Prop :=
  index m1 = index m2
  /\ uid_to_faiss_id m1 = uid_to_faiss_id m2
  /\ faiss_id_to_uid m1 = faiss_id_to_uid m2.

(** The manager a new run would build from the files is the one in memory. *)
Definition reloads (st : manager * files V) : Prop :=
  same_pair (fst (EmbeddingManager_init V (snd st))) (fst st).

Lemma persisted_reloads (st : manager * files V) : persisted V st -> reloads st.
Proof.
  intros Hst. unfold reloads. by rewrite (reload_persisted V st Hst).
Qed.

Lemma init_reloads (fs : files V) : reloads (EmbeddingManager_init V fs).
Proof.
  unfold reloads, EmbeddingManager_init, _load_or_create_index.
  destruct (faiss_index_bin fs) as [stored|] eqn:E; simpl.
  - rewrite E. done.
  - done.
Qed.

Lemma embed_emails_reloads (st : manager * files V) (emails : list email) :
  reloads st -> reloads (embed_emails V encode (fst st) emails (snd st)).
Proof.
  intros Hst. unfold embed_emails.
  destruct emails as [|e0 emails0]; [by destruct st|].
  destruct (new_emails (fst st) (e0 :: emails0)); [by destruct st|].
  by apply persisted_reloads.
Qed.

(** X4. What is saved is what is loaded: after the manager is built from any
    files and [embed_emails] is called any number of times, building a
    manager again from the files left on disk gives the same Vector Index and
    the same two maps as the manager in memory. *)
Theorem reload_after_indexing (fs : files V) (calls : list (list email)) :
  let st := index_all V encode calls (EmbeddingManager_init V fs) in
  same_pair (fst (EmbeddingManager_init V (snd st))) (fst st).
Proof.
  intros st. change (reloads st). unfold st.
  generalize (init_reloads fs). generalize (EmbeddingManager_init V fs).
  induction calls as [|emails calls IH]; intros st0 Hst0; simpl; [done|].
  by apply IH, embed_emails_reloads.
Qed.

Lemma _embed_batch_same_pair (m1 m2 : manager) (batch : list email) :
  same_pair m1 m2 ->
  same_pair (_embed_batch V encode m1 batch) (_embed_batch V encode m2 batch).
Proof.
  intros (Hi & Hu & Hf). unfold same_pair, _embed_batch, ntotal. simpl.
  by rewrite Hi, Hu, Hf.
Qed.

Lemma fold_embed_batch_same_pair (bs : list (list email)) :
  forall m1 m2 : manager,
    same_pair m1 m2 ->
    same_pair (fold_left (_embed_batch V encode) bs m1)
              (fold_left (_embed_batch V encode) bs m2).
Proof.
  induction bs as [|b bs IH]; intros m1 m2 H12; simpl; [done|].
  by apply IH, _embed_batch_same_pair.
Qed.

(** X5. [clear_index] brings back the state of a new installation: whatever
    the manager and the files were, the files afterwards hold an empty index
    and empty maps, and indexing any records into the cleared manager gives
    the same Vector Index, the same maps and the same files as indexing them
    into a manager built where no file exists. *)
Theorem clear_index_then_index (m : manager) (fs : files V)
    (emails : list email) :
  let cleared := clear_index V m fs in
  let fresh := EmbeddingManager_init V (no_files V) in
  snd cleared = {| faiss_index_bin := Some []; faiss_mapping_json := Some (∅, ∅) |}
  /\ same_pair (fst (embed_emails V encode (fst cleared) emails (snd cleared)))
               (fst (embed_emails V encode (fst fresh) emails (snd fresh)))
  /\ snd (embed_emails V encode (fst cleared) emails (snd cleared))
     = snd (embed_emails V encode (fst fresh) emails (snd fresh)).
Proof.
  intros cleared fresh. split; [done|].
  assert (Hsame : same_pair (fst cleared) (fst fresh)) by done.
  assert (Hnew : new_emails (fst cleared) emails = new_emails (fst fresh) emails)
    by done.
  unfold embed_emails. rewrite Hnew.
  destruct emails as [|e0 emails0]; [done|].
  destruct (new_emails (fst fresh) (e0 :: emails0)) as [|e new]; [done|].
  cbn [fst snd].
  assert (Hfold := fold_embed_batch_same_pair (batches (e :: new))
                     (fst cleared) (fst fresh) Hsame).
  split; [done|].
  destruct Hfold as (Hi & Hu & Hf).
  unfold _save_index, _save_mapping. cbn [faiss_index_bin].
  by rewrite Hi, Hu, Hf.
Qed.

End IndexerMore.

(** ** search.py and the search of embedding.py *)


Lemma length_omap_le {A B} (f : A -> option B) (l : list A) :
  (length (omap f l) <= length l)%nat.
Proof.
  unfold omap. induction l as [|x l IH]; simpl; [done|].
  destruct (f x); simpl; lia.
Qed.

Lemma length_enumerate_from {A} (l : list A) (j : Z) :
  length (Py.enumerate_from j l) = length l.
Proof. revert j. induction l as [|x l IH]; intros j; simpl; [done|]. by rewrite IH. Qed.

Lemma enumerate_from_lookup {A} (l : list A) (j i : Z) (x : A) :
  (i, x) ∈ Py.enumerate_from j l <->
  exists n : nat, i = j + Z.of_nat n /\ l !! n = Some x.
Proof.
  revert j. induction l as [|y l IH]; intros j; simpl.
  - split; [intros H; by apply elem_of_nil in H|].
    intros (n & _ & H). by rewrite lookup_nil in H.
  - rewrite elem_of_cons, IH. split.
    + intros [[= -> ->]|(n & -> & Hn)].
      * exists 0%nat. split; [lia|done].
      * exists (S n). split; [lia|done].
    + intros ([|n] & -> & Hn); simpl in Hn.
      * left. injection Hn as ->. f_equal. lia.
      * right. exists n. split; [lia|done].
Qed.

Lemma length_filter_raising {A} (p : A -> Py.outcome bool) (l rs : list A) :
  Py.filter_raising p l = Py.Ok rs -> (length rs <= length l)%nat.
Proof.
  revert rs. induction l as [|x l IH]; simpl; intros rs Hf.
  - by injection Hf as <-.
  - destruct (p x) as [keep|e]; simpl in Hf; [|done].
    destruct (Py.filter_raising p l) as [rest|e]; simpl in Hf; [|done].
    injection Hf as <-. specialize (IH rest eq_refl).
    destruct keep; simpl; lia.
Qed.

Lemma length_List_filter_le {A} (q : A -> bool) (l : list A) :
  (length (List.filter q l) <= length l)%nat.
Proof.
  induction l as [|x l IH]; simpl; [done|]. destruct (q x); simpl; lia.
Qed.


Lemma collect_uids_length (f2u : gmap string string) (indices : list Z) :
  (length (collect_uids f2u indices) <= length indices)%nat.
Proof.
  induction indices as [|idx rest IH]; simpl; [done|].
  case_decide; [lia|]. destruct (f2u !! Py.str idx) as [u|]; [|lia].
  destruct (String.eqb u ""); simpl; lia.
Qed.

Lemma uid_to_email_is_Some (emails : list row) (r : row) :
  r ∈ emails -> is_Some (uid_to_email emails !! r_uid r).
Proof.
  unfold uid_to_email.
  assert (G : forall (m0 : gmap string row) u,
    (is_Some (m0 !! u) \/ exists r', r' ∈ emails /\ r_uid r' = u) ->
    is_Some (fold_left (fun m r => <[r_uid r := r]> m) emails m0 !! u)).
  { induction emails as [|r0 emails IH]; simpl; intros m0 u Hu.
    - destruct Hu as [Hu|(r' & Hr' & _)]; [done|by apply elem_of_nil in Hr'].
    - apply IH. destruct (decide (r_uid r0 = u)) as [<-|Hne].
      + left. rewrite lookup_insert_eq. eauto.
      + destruct Hu as [Hu|(r' & Hr' & Hu)].
        * left. by rewrite lookup_insert_ne.
        * apply elem_of_cons in Hr' as [->|Hr']; [done|]. right. eauto. }
  intros Hr. apply G. right. by exists r.
Qed.

(** X6. [_fetch_metadata_for_uids] keeps the order of the uids it is given
    and leaves out those the table does not hold; a uid the table holds is
    returned.  The similarity of a result is [1 - distances[i]], [i] being
    the place of its uid in that list of uids (0 when [distances] is
    shorter), not the place of the neighbour in the reply of the index. *)
Theorem _fetch_metadata_scores (t : table) (uids : list string)
    (distances : list Q) :
  let results := _fetch_metadata_for_uids t uids distances in
  map res_uid results `sublist_of` uids
  /\ (forall r, r ∈ results ->
        exists (i : nat) (stored : row),
          uids !! i = Some (res_uid r)
          /\ stored ∈ t
          /\ r = make_result stored
                   (match distances !! i with
                    | Some d => 1 - d
                    | None => 0
                    end)%Q)
  /\ (forall stored, stored ∈ t -> r_uid stored ∈ uids ->
        r_uid stored ∈ map res_uid results).
Proof.
  intros results. unfold results, _fetch_metadata_for_uids.
  set (by_uid := uid_to_email (select_uids uids t)).
  set (f := fun iu : Z * string =>
              match by_uid !! snd iu with
              | Some r =>
                  Some (make_result r
                          match distances !! Z.to_nat (fst iu) with
                          | Some d => (1 - d)%Q
                          | None => 0%Q
                          end)
              | None => None
              end).
  assert (Huid : forall iu r, f iu = Some r -> res_uid r = snd iu).
  { intros [i u] r Hf. unfold f in Hf. simpl in Hf.
    destruct (by_uid !! u) as [r0|] eqn:E; [|done]. injection Hf as <-.
    by apply uid_to_email_lookup in E as [_ ?]. }
  split; [|split].
  - assert (G : forall (l : list string) (j : Z),
              map res_uid (omap f (Py.enumerate_from j l)) `sublist_of` l).
    { induction l as [|u l IH]; intros j; simpl; [constructor|].
      destruct (f (j, u)) as [r|] eqn:E; simpl.
      - rewrite (Huid _ _ E). simpl. constructor. apply IH.
      - constructor. apply IH. }
    apply G.
  - intros r Hr. apply list_elem_of_omap in Hr as ([i u] & Hiu & Hf).
    apply enumerate_from_lookup in Hiu as (n & -> & Hn).
    unfold f in Hf. simpl in Hf.
    destruct (by_uid !! u) as [r0|] eqn:E; [|done]. injection Hf as <-.
    apply uid_to_email_lookup in E as [Hr0 Hu].
    apply list_elem_of_filter in Hr0 as [_ Hr0].
    exists n, r0. simpl. rewrite Hu. split; [done|]. split; [done|].
    by replace (Z.to_nat (0 + Z.of_nat n)) with n by lia.
  - intros stored Hs Hu.
    assert (Hsel : stored ∈ select_uids uids t)
      by (by apply list_elem_of_filter).
    destruct (uid_to_email_is_Some _ _ Hsel) as [r0 Hr0]. fold by_uid in Hr0.
    apply list_elem_of_lookup_1 in Hu as [n Hn].
    apply list_elem_of_fmap.
    eexists (make_result r0 _). split; [|apply list_elem_of_omap].
    2:{ exists (Z.of_nat n, r_uid stored). split.
        - apply enumerate_from_lookup. exists n. split; [lia|done].
        - unfold f. simpl. rewrite Hr0. reflexivity. }
    simpl. by apply uid_to_email_lookup in Hr0 as [_ ?].
Qed.

Section SearchMore.

Import Py.

Variable V : Type.
Variable encode : list string -> list V.
Variable index_search : list V -> list V -> Z -> list Q * list Z.
Variable re_valid : string -> bool.
Variable re_search : string -> string -> bool.
Variable fromisoformat : string -> option datetime.
Variable strptime : string -> string -> option datetime.

Local Abbreviation search :=
  (search_emails_enhanced V encode index_search re_valid re_search
     fromisoformat strptime).
Local Abbreviation parse_date := (_parse_date fromisoformat strptime).
Local Abbreviation after_filter := (filter_date_after fromisoformat strptime).
Local Abbreviation before_filter := (filter_date_before fromisoformat strptime).
Local Abbreviation regex_filter := (filter_regex re_valid re_search).

(** The reply of the index to a query, and the candidates hydrated from it. *)
Definition reply (m : EmbeddingManager V) (query : string) (limit : Z)
  : list Q * list Z :=
  index_search (index m) (encode [query]) limit.

Definition candidate_uids (m : EmbeddingManager V) (query : string) (limit : Z)
  : list string :=
  collect_uids (faiss_id_to_uid m) (snd (reply m query limit)).

Definition candidates (m : EmbeddingManager V) (t : table) (query : string)
    (limit : Z) : list result :=
  _fetch_metadata_for_uids t (candidate_uids m query limit)
    (fst (reply m query limit)).

(** The value of [search_emails_enhanced], stage by stage. *)
Lemma search_value (m : EmbeddingManager V) (t : table) (query : string)
    (date_after date_before sender regex : option string) (limit : Z) :
  snd (search m t query date_after date_before sender regex limit)
  = match candidate_uids m query limit with
    | [] => Ok []
    | _ =>
        bind (after_filter date_after (candidates m t query limit)) (fun rs1 =>
        bind (before_filter date_before rs1) (fun rs2 =>
        bind (regex_filter regex (filter_sender sender rs2)) (fun rs3 =>
        Ok (slice_to (sort_desc score_geb rs3) limit))))
    end.
Proof.
  unfold search_emails_enhanced, candidates, candidate_uids, reply.
  destruct (index_search (index m) (encode [query]) limit)
    as [distances indices]. simpl.
  by destruct (collect_uids (faiss_id_to_uid m) indices).
Qed.

Lemma search_value_inv (m : EmbeddingManager V) (t : table) (query : string)
    (date_after date_before sender regex : option string) (limit : Z)
    (results : list result) :
  snd (search m t query date_after date_before sender regex limit) = Ok results ->
  (candidate_uids m query limit = [] /\ results = []) \/
  exists rs1 rs2 rs3,
    after_filter date_after (candidates m t query limit) = Ok rs1
    /\ before_filter date_before rs1 = Ok rs2
    /\ regex_filter regex (filter_sender sender rs2) = Ok rs3
    /\ results = slice_to (sort_desc score_geb rs3) limit.
Proof.
  rewrite search_value.
  destruct (candidate_uids m query limit) as [|u us]; [intros [= <-]; by left|].
  destruct (after_filter _ _) as [rs1|e] eqn:E1; simpl; [|done].
  destruct (before_filter _ _) as [rs2|e] eqn:E2; simpl; [|done].
  destruct (regex_filter _ _) as [rs3|e] eqn:E3; simpl; [|done].
  intros [= <-]. right. by exists rs1, rs2, rs3.
Qed.

Lemma length_after_filter (date_after : option string) (l rs : list result) :
  after_filter date_after l = Ok rs -> (length rs <= length l)%nat.
Proof.
  unfold filter_date_after. destruct (truthy date_after); [|by intros [= <-]].
  destruct (strptime _ _); [|done]. apply length_filter_raising.
Qed.

Lemma length_before_filter (date_before : option string) (l rs : list result) :
  before_filter date_before l = Ok rs -> (length rs <= length l)%nat.
Proof.
  unfold filter_date_before. destruct (truthy date_before); [|by intros [= <-]].
  destruct (strptime _ _); [|done]. apply length_filter_raising.
Qed.

Lemma length_regex_filter (regex : option string) (l rs : list result) :
  regex_filter regex l = Ok rs -> (length rs <= length l)%nat.
Proof.
  unfold filter_regex. destruct (truthy regex); [|by intros [= <-]].
  destruct (re_valid _); [|done]. intros [= <-]. apply length_List_filter_le.
Qed.

Lemma length_filter_sender (sender : option string) (l : list result) :
  (length (filter_sender sender l) <= length l)%nat.
Proof.
  unfold filter_sender. destruct (truthy sender); [|done].
  apply length_List_filter_le.
Qed.

Lemma length_slice_to {A} (l : list A) (n : Z) :
  (length (slice_to l n) <= length l)%nat
  /\ (0 <= n -> Z.of_nat (length (slice_to l n)) <= n).
Proof.
  unfold slice_to. case_decide; rewrite length_take; lia.
Qed.

Lemma length_candidates (m : EmbeddingManager V) (t : table) (query : string)
    (limit : Z) :
  (length (candidates m t query limit) <= length (snd (reply m query limit)))%nat.
Proof.
  unfold candidates, _fetch_metadata_for_uids, candidate_uids.
  etrans; [apply length_omap_le|].
  unfold enumerate. rewrite length_enumerate_from. apply collect_uids_length.
Qed.

(** X7. When [search_emails_enhanced] returns, its results are in descending
    order of similarity score, there are at most [limit] of them (for a
    [limit] that is not negative), and never more than the index returned
    neighbours. *)
Theorem search_results_ranked (m : EmbeddingManager V) (t : table)
    (query : string) (date_after date_before sender regex : option string)
    (limit : Z) (results : list result) :
  snd (search m t query date_after date_before sender regex limit) = Ok results ->
  StronglySorted (fun x y => (similarity_score y <= similarity_score x)%Q) results
  /\ (0 <= limit -> Z.of_nat (length results) <= limit)
  /\ (length results <= length (snd (reply m query limit)))%nat.
Proof.
  intros Hv. apply search_value_inv in Hv
    as [[_ ->]|(rs1 & rs2 & rs3 & H1 & H2 & H3 & ->)].
  - split; [constructor|]. simpl. split; lia.
  - destruct (length_slice_to (sort_desc score_geb rs3) limit) as [Hl1 Hl2].
    split; [|split; [done|]].
    + assert (Hs : StronglySorted
                (fun x y => (similarity_score y <= similarity_score x)%Q)
                (sort_desc score_geb rs3)).
      { eapply StronglySorted_weaken;
          [|apply (sort_desc_sorted score_geb score_geb_total score_geb_trans)].
        intros x y Hxy. by apply Qle_bool_iff. }
      unfold slice_to. case_decide; by apply StronglySorted_take.
    + rewrite (Permutation_length (sort_desc_perm score_geb rs3)) in Hl1.
      apply length_after_filter in H1. apply length_before_filter in H2.
      apply length_regex_filter in H3.
      assert (H4 := length_filter_sender sender rs2).
      assert (H5 := length_candidates m t query limit). lia.
Qed.

(** What the four filters keep. *)
Definition passes (date_after date_before sender regex : option string)
    (r : result) : Prop :=
  (truthy date_after = true ->
     exists bound d,
       strptime (default "" date_after) "%Y-%m-%d" = Some bound
       /\ parse_date (res_date r) = Ok d /\ datetime_leb bound d = true)
  /\ (truthy date_before = true ->
        exists bound d,
          strptime (default "" date_before) "%Y-%m-%d" = Some bound
          /\ parse_date (res_date r) = Ok d /\ datetime_leb d bound = true)
  /\ (truthy sender = true ->
        contains (lower (default "" sender)) (lower (res_sender r)) = true)
  /\ (truthy regex = true ->
        re_search (default "" regex) (body_preview r) = true).

Lemma bind_Ok_true (o : outcome datetime) (k : datetime -> bool) :
  bind o (fun d => Ok (k d)) = Ok true <-> exists d, o = Ok d /\ k d = true.
Proof.
  destruct o as [d|e]; simpl.
  - split; [intros [= H]; eauto|]. by intros (d' & [= <-] & ->).
  - split; [done|]. by intros (d & ? & _).
Qed.

Lemma after_filter_elem (date_after : option string) (l rs : list result)
    (r : result) :
  after_filter date_after l = Ok rs ->
  (r ∈ rs <->
   r ∈ l /\ (truthy date_after = true ->
              exists bound d,
                strptime (default "" date_after) "%Y-%m-%d" = Some bound
                /\ parse_date (res_date r) = Ok d
                /\ datetime_leb bound d = true)).
Proof.
  unfold filter_date_after. destruct (truthy date_after).
  - destruct (strptime _ _) as [bound|]; [|done]. intros Hf.
    rewrite (filter_raising_elem _ _ _ r Hf), bind_Ok_true. split.
    + intros [Hin (d & Hd & Hle)]. split; [done|]. intros _. by exists bound, d.
    + intros [Hin Hex]. split; [done|].
      destruct (Hex eq_refl) as (b & d & [= <-] & Hd & Hle). by exists d.
  - intros [= <-]. split; [by intros ?|by intros [? _]].
Qed.

Lemma before_filter_elem (date_before : option string) (l rs : list result)
    (r : result) :
  before_filter date_before l = Ok rs ->
  (r ∈ rs <->
   r ∈ l /\ (truthy date_before = true ->
              exists bound d,
                strptime (default "" date_before) "%Y-%m-%d" = Some bound
                /\ parse_date (res_date r) = Ok d
                /\ datetime_leb d bound = true)).
Proof.
  unfold filter_date_before. destruct (truthy date_before).
  - destruct (strptime _ _) as [bound|]; [|done]. intros Hf.
    rewrite (filter_raising_elem _ _ _ r Hf), bind_Ok_true. split.
    + intros [Hin (d & Hd & Hle)]. split; [done|]. intros _. by exists bound, d.
    + intros [Hin Hex]. split; [done|].
      destruct (Hex eq_refl) as (b & d & [= <-] & Hd & Hle). by exists d.
  - intros [= <-]. split; [by intros ?|by intros [? _]].
Qed.

Lemma filter_sender_iff (sender : option string) (l : list result) (r : result) :
  r ∈ filter_sender sender l <->
  r ∈ l /\ (truthy sender = true ->
             contains (lower (default "" sender)) (lower (res_sender r)) = true).
Proof.
  unfold filter_sender. destruct (truthy sender).
  - rewrite elem_of_List_filter. split; [intros [? ?]; by split|].
    intros [? H]. split; [done|by apply H].
  - split; [by intros ?|by intros [? _]].
Qed.

Lemma regex_filter_elem (regex : option string) (l rs : list result) (r : result) :
  regex_filter regex l = Ok rs ->
  (r ∈ rs <->
   r ∈ l /\ (truthy regex = true ->
             re_search (default "" regex) (body_preview r) = true)).
Proof.
  unfold filter_regex. destruct (truthy regex).
  - destruct (re_valid _); [|done]. intros [= <-].
    rewrite elem_of_List_filter. split; [intros [? ?]; by split|].
    intros [? H]. split; [done|by apply H].
  - intros [= <-]. split; [by intros ?|by intros [? _]].
Qed.

(** X8. The filters of [search_emails_enhanced] are conjunctive and only
    narrow the candidates hydrated from the neighbours: every result is a
    candidate that passes each filter given (date at or after [date_after],
    at or before [date_before], sender containing [sender] without regard to
    case, pattern found in the preview); and when the call returns and
    [limit] is at least the number of candidates, every candidate that
    passes the filters given is among the results. *)
Theorem search_filters_conjunctive (m : EmbeddingManager V) (t : table)
    (query : string) (date_after date_before sender regex : option string)
    (limit : Z) (results : list result) :
  snd (search m t query date_after date_before sender regex limit) = Ok results ->
  (forall r, r ∈ results ->
     r ∈ candidates m t query limit
     /\ passes date_after date_before sender regex r)
  /\ (Z.of_nat (length (candidates m t query limit)) <= limit ->
      forall r, r ∈ candidates m t query limit ->
        passes date_after date_before sender regex r -> r ∈ results).
Proof.
  intros Hv. apply search_value_inv in Hv
    as [[Hu ->]|(rs1 & rs2 & rs3 & H1 & H2 & H3 & ->)].
  - split; [intros r Hr; by apply elem_of_nil in Hr|].
    intros _ r Hr. unfold candidates in Hr. rewrite Hu in Hr.
    by apply elem_of_nil in Hr.
  - assert (Hkept : forall r, r ∈ rs3 <->
              r ∈ candidates m t query limit
              /\ passes date_after date_before sender regex r).
    { intros r. rewrite (regex_filter_elem _ _ _ r H3), filter_sender_iff,
        (before_filter_elem _ _ _ r H2), (after_filter_elem _ _ _ r H1).
      unfold passes. tauto. }
    split.
    + intros r Hr. apply slice_to_subseteq in Hr.
      rewrite sort_desc_perm in Hr. by apply Hkept.
    + intros Hlimit r Hr Hpass.
      assert (Hlen : (length (sort_desc score_geb rs3)
                      <= length (candidates m t query limit))%nat).
      { rewrite (Permutation_length (sort_desc_perm score_geb rs3)).
        apply length_after_filter in H1. apply length_before_filter in H2.
        apply length_regex_filter in H3.
        assert (H4 := length_filter_sender sender rs2). lia. }
      unfold slice_to. rewrite decide_True by lia. rewrite take_ge by lia.
      rewrite sort_desc_perm. by apply Hkept.
Qed.





Lemma neighbours_hit (f2u : gmap string string) (hits : list (Q * Z))
    (nb : neighbour) :
  nb ∈ neighbours f2u hits <->
  exists idx,
    (nb_distance nb, idx) ∈ hits /\ idx ≠ -1
    /\ f2u !! Py.str idx = Some (nb_uid nb) /\ nb_uid nb ≠ ""
    /\ nb_similarity_score nb = (1 - nb_distance nb)%Q.
Proof.
  induction hits as [|[d idx] rest IH]; simpl.
  - split; [intros H; by apply elem_of_nil in H|].
    intros (i & H & _). by apply elem_of_nil in H.
  - assert (Hskip : (idx = -1 \/ f2u !! Py.str idx = None
                     \/ f2u !! Py.str idx = Some "") ->
              (nb ∈ neighbours f2u rest <->
               exists idx', (nb_distance nb, idx') ∈ (d, idx) :: rest
                 /\ idx' ≠ -1 /\ f2u !! Py.str idx' = Some (nb_uid nb)
                 /\ nb_uid nb ≠ ""
                 /\ nb_similarity_score nb = (1 - nb_distance nb)%Q)).
    { intros Hbad. rewrite IH. split.
      - intros (i & Hi & ?). exists i. split; [by apply list_elem_of_further|done].
      - intros (i & Hi & Hne & Hl & Hu & Hs).
        apply elem_of_cons in Hi as [[= _ ->]|Hi]; [|by exists i].
        destruct Hbad as [?|[Hbad|Hbad]]; [done| |]; rewrite Hbad in Hl;
          [done|]. injection Hl as Hl. by rewrite <- Hl in Hu. }
    case_decide as Hm; [apply Hskip; by left|].
    destruct (f2u !! Py.str idx) as [u|] eqn:E; [|apply Hskip; right; by left].
    destruct (String.eqb u "") eqn:Eu.
    { apply String.eqb_eq in Eu. subst u. apply Hskip. right. by right. }
    apply String.eqb_neq in Eu. rewrite elem_of_cons, IH. split.
    + intros [->|(i & Hi & ?)].
      * exists idx. simpl. split; [apply list_elem_of_here|done].
      * exists i. split; [by apply list_elem_of_further|done].
    + intros (i & Hi & Hne & Hl & Hu & Hs).
      apply elem_of_cons in Hi as [[= Hd ->]|Hi]; [|right; by exists i].
      left. destruct nb as [nu ns nd]. simpl in *.
      rewrite E in Hl. injection Hl as ->. by subst.
Qed.

Lemma neighbours_length (f2u : gmap string string) (hits : list (Q * Z)) :
  (length (neighbours f2u hits) <= length hits)%nat.
Proof.
  induction hits as [|[d idx] rest IH]; simpl; [done|].
  case_decide; [lia|]. destruct (f2u !! Py.str idx) as [u|]; [|lia].
  destruct (String.eqb u ""); simpl; lia.
Qed.

(** X11. [search_similar_emails] on an empty index returns nothing and does
    not call the model.  Otherwise it returns exactly one entry for every
    neighbour of the reply that is not [-1] and has a non-empty uid in the
    Identity Map, and each entry carries the distance of its own neighbour:
    distance and similarity add up to 1. *)
Theorem search_similar_emails_aligned (m : EmbeddingManager V) (query : string)
    (k : Z) :
  let run := search_similar_emails V encode index_search m query k in
  let hits := zip (fst (reply m query k)) (snd (reply m query k)) in
  (index m = [] -> run = ([], []))
  /\ (index m ≠ [] ->
      fst run = [ModelEncode [query]; IndexSearch k]
      /\ forall nb, nb ∈ snd run <->
           exists idx,
             (nb_distance nb, idx) ∈ hits /\ idx ≠ -1
             /\ faiss_id_to_uid m !! Py.str idx = Some (nb_uid nb)
             /\ nb_uid nb ≠ ""
             /\ nb_similarity_score nb = (1 - nb_distance nb)%Q)
  /\ (length (snd run) <= length hits)%nat.
Proof.
  intros run hits. unfold run, hits, search_similar_emails, reply, ntotal.
  split; [|split].
  - intros ->. done.
  - intros Hne. rewrite decide_False by (destruct (index m); [done|simpl; lia]).
    destruct (index_search (index m) (encode [query]) k) as [ds ixs]. simpl.
    split; [done|]. intros nb. apply neighbours_hit.
  - case_decide; [simpl; lia|].
    destruct (index_search (index m) (encode [query]) k) as [ds ixs]. simpl.
    apply neighbours_length.
Qed.

(** *** The keyword fallback *)

Variable numeric_literal : string -> option sql_number.

Local Abbreviation keyword_search :=
  (keyword_fallback_search re_valid re_search numeric_literal).

Lemma filter_all {A} (P : A -> Prop) `{forall x, Decision (P x)} (l : list A) :
  (forall x, x ∈ l -> P x) -> filter P l = l.
Proof.
  induction l as [|x l IH]; intros HP; [done|].
  rewrite filter_cons, decide_True by (apply HP, list_elem_of_here).
  f_equal. apply IH. intros y Hy. by apply HP, list_elem_of_further.
Qed.


(** X13. The relevance score of the keyword fallback lies between 0 and 3
    for every query, subject and body. *)
Theorem keyword_relevance_range (query subject body : string) :
  (0 <= _calculate_keyword_relevance query subject body)%Q
  /\ (_calculate_keyword_relevance query subject body <= 3)%Q.
Proof.
  destruct (split (lower query)) as [|k0 ks] eqn:E.
  - unfold _calculate_keyword_relevance. rewrite E. split; by compute.
  - assert (Hne : split (lower query) ≠ []) by (by rewrite E).
    rewrite (_calculate_keyword_relevance_counts query subject body Hne).
    set (keywords := split (lower query)).
    set (a := length (List.filter (fun k => contains k (lower subject)) keywords)).
    set (b := length (List.filter (fun k => contains k (lower body)) keywords)).
    assert (Ha : (a <= length keywords)%nat) by apply length_List_filter_le.
    assert (Hb : (b <= length keywords)%nat) by apply length_List_filter_le.
    assert (Hn : (0 < length keywords)%nat)
      by (unfold keywords; rewrite E; simpl; lia).
    assert (Hpos : (0 < inject_Z (Z.of_nat (length keywords)))%Q).
    { rewrite <- (Zlt_Qlt 0). lia. }
    split.
    + apply Qle_shift_div_l; [done|]. rewrite Qmult_0_l.
      rewrite <- (Zle_Qle 0). lia.
    + apply Qle_shift_div_r; [done|].
      change 3%Q with (inject_Z 3). rewrite <- inject_Z_mult, <- Zle_Qle. lia.
Qed.







End SearchMore.

Lemma string_length_append (s1 s2 : string) :
  String.length (s1 +:+ s2) = (String.length s1 + String.length s2)%nat.
Proof. induction s1 as [|c s1 IH]; simpl; [done|]. by rewrite IH. Qed.

Lemma string_length_substring_0 (n : nat) (s : string) :
  String.length (String.substring 0 n s) = (n `min` String.length s)%nat.
Proof.
  revert n. induction s as [|c s IH]; intros [|n]; simpl; try done.
  by rewrite IH.
Qed.

Lemma string_split (n : nat) (s : string) :
  (n <= String.length s)%nat ->
  exists rest, s = String.substring 0 n s +:+ rest.
Proof.
  revert n. induction s as [|c s IH]; intros [|n] Hn; simpl in *.
  - by exists "".
  - lia.
  - by exists (String c s).
  - destruct (IH n) as [rest Hrest]; [lia|]. exists rest.
    change (String c (String.substring 0 n s) +:+ rest)
      with (String c (String.substring 0 n s +:+ rest)).
    by rewrite <- Hrest.
Qed.

(** X15. The preview of a result has at most 203 characters: it is the body
    itself when the body has at most 200 characters, and otherwise the first
    200 characters of the body followed by three dots. *)
Theorem body_preview_bound (stored : row) (score : Q) :
  let p := body_preview (make_result stored score) in
  let b := r_body stored in
  (String.length p <= 203)%nat
  /\ ((String.length b <= 200)%nat -> p = b)
  /\ ((200 < String.length b)%nat ->
      exists head rest,
        b = head +:+ rest /\ String.length head = 200%nat
        /\ p = head +:+ "...").
Proof.
  intros p b. unfold p, b. simpl. unfold preview.
  destruct (Nat.ltb_spec 200 (String.length (r_body stored))) as [Hlong|Hshort].
  - assert (Hhead : String.length (String.substring 0 200 (r_body stored))
                    = 200%nat).
    { rewrite string_length_substring_0. lia. }
    split; [|split; [lia|]].
    + rewrite string_length_append, Hhead.
      change (String.length "...") with 3%nat. lia.
    + intros _. destruct (string_split 200 (r_body stored)) as [rest Hrest];
        [lia|].
      exists (String.substring 0 200 (r_body stored)), rest. done.
  - split; [lia|]. split; [done|]. lia.
Qed.

(** ** metadata_store.py *)

(** [MetadataStore.list_emails]:
    [SELECT uid, subject, sender, date FROM emails ORDER BY date DESC]. *)
Definition list_emails (t : table) : list (string * string * string * sql_date) :=
  map (fun r => (r_uid r, r_subject r, r_sender r, r_date r))
      (Py.sort_desc date_geb t).

Lemma elem_of_insert_or_replace (r : row) (t : table) (x : row) :
  x ∈ insert_or_replace r t <-> x = r \/ (x ∈ t /\ r_uid x ≠ r_uid r).
Proof.
  unfold insert_or_replace.
  rewrite elem_of_app, list_elem_of_filter, list_elem_of_singleton. tauto.
Qed.

Lemma insert_or_replace_NoDup (r : row) (t : table) :
  NoDup (map r_uid t) -> NoDup (map r_uid (insert_or_replace r t)).
Proof.
  intros Hnd. unfold insert_or_replace, table in *. rewrite map_app.
  apply NoDup_app. split; [|split].
  - induction t as [|x t IH]; [constructor|].
    simpl in Hnd. apply NoDup_cons in Hnd as [Hx Hnd].
    rewrite filter_cons. case_decide; [|by apply IH].
    simpl. constructor; [|by apply IH].
    intros Hin. apply Hx. apply list_elem_of_fmap in Hin as (y & Hy & Hin).
    apply list_elem_of_filter in Hin as [_ Hin].
    apply list_elem_of_fmap. by exists y.
  - intros u Hu Hr. simpl in Hr. apply list_elem_of_singleton in Hr. subst u.
    apply list_elem_of_fmap in Hu as (y & Hy & Hin).
    apply list_elem_of_filter in Hin as [Hne _]. by apply Hne.
  - simpl. apply NoDup_singleton.
Qed.

Section StoreMore.

Variable numeric_literal : string -> option sql_number.

(** X16. [update_emails] keeps the primary key: on a table with one row per
    uid it leaves one row per uid.  Afterwards the table holds, for every uid
    among the given emails, the row built from the last email with that uid
    (its date a number when the date text reads as one), and the rows it had
    for all other uids; nothing else. *)
Theorem update_emails_upsert (emails : list email) (t : table) :
  NoDup (map r_uid t) ->
  let t' := update_emails numeric_literal emails t in
  NoDup (map r_uid t')
  /\ forall x, x ∈ t' <->
       (x ∈ t /\ r_uid x ∉ map uid emails)
       \/ exists (j : nat) e,
            emails !! j = Some e /\ x = row_of_email numeric_literal e
            /\ forall (j' : nat) e', (j < j')%nat -> emails !! j' = Some e' ->
                 uid e' ≠ uid e.
Proof.
  revert t. induction emails as [|e emails IH]; intros t Hnd; simpl.
  - split; [done|]. intros x. split; [intros Hx; left; split; [done|]|].
    + intros H. by apply elem_of_nil in H.
    + intros [[? _]|(j & e & Hj & _)]; [done|by rewrite lookup_nil in Hj].
  - destruct (IH (insert_or_replace (row_of_email numeric_literal e) t))
      as [Hnd' Hiff];
      [by apply insert_or_replace_NoDup|].
    split; [done|]. intros x. rewrite Hiff, elem_of_insert_or_replace.
    change (r_uid (row_of_email numeric_literal e)) with (uid e). split.
    + intros [[[->|[Hx Hne]] Hout]|(j & e1 & Hj & -> & Hlast)].
      * right. exists 0%nat, e. split; [done|]. split; [done|].
        intros [|j'] e' Hlt Hj'; [lia|]. simpl in Hj'.
        intros Heq. apply Hout. simpl. rewrite <- Heq.
        apply list_elem_of_fmap. exists e'. split; [done|].
        by eapply list_elem_of_lookup_2.
      * left. split; [done|]. intros Hin.
        apply elem_of_cons in Hin as [?|?]; [done|by apply Hout].
      * right. exists (S j), e1. split; [done|]. split; [done|].
        intros [|j'] e' Hlt Hj'; [lia|]. simpl in Hj'.
        apply (Hlast j' e'); [lia|done].
    + intros [[Hx Hout]|(j & e1 & Hj & -> & Hlast)].
      * left. split.
        -- right. split; [done|]. intros Heq. apply Hout. rewrite Heq.
           apply list_elem_of_here.
        -- intros Hin. apply Hout. by apply list_elem_of_further.
      * destruct j as [|j]; simpl in Hj.
        -- injection Hj as <-. left. split; [by left|].
           intros Hin. simpl in Hin.
           apply list_elem_of_fmap in Hin as (e' & Heq & Hin).
           apply list_elem_of_lookup_1 in Hin as [j' Hj'].
           apply (Hlast (S j') e'); [lia|done|done].
        -- right. exists j, e1. split; [done|]. split; [done|].
           intros j' e' Hlt Hj'. apply (Hlast (S j') e'); [lia|done].
Qed.

Lemma update_emails_uids (emails : list email) (t : table) (u : string) :
  u ∈ map r_uid (update_emails numeric_literal emails t) <->
  u ∈ map r_uid t \/ u ∈ map uid emails.
Proof.
  revert t. induction emails as [|e emails IH]; intros t; simpl.
  - split; [by left|]. intros [?|H]; [done|by apply elem_of_nil in H].
  - rewrite IH, elem_of_cons, !list_elem_of_fmap. split.
    + intros [(x & -> & Hx)|Hin]; [|by right; right].
      apply elem_of_insert_or_replace in Hx as [->|[Hx _]].
      * right. by left.
      * left. by exists x.
    + intros [(x & -> & Hx)|[->|Hin]]; [|left|by right].
      * destruct (decide (r_uid x = uid e)) as [Heq|Hne].
        -- left. exists (row_of_email numeric_literal e). split; [done|].
           apply elem_of_insert_or_replace. by left.
        -- left. exists x. split; [done|].
           apply elem_of_insert_or_replace. by right.
      * exists (row_of_email numeric_literal e). split; [done|].
        apply elem_of_insert_or_replace. by left.
Qed.

End StoreMore.

(** X17. [list_emails] returns every stored email once, newest first; rows
    without a date come last. *)
Theorem list_emails_newest_first (t : table) :
  list_emails t
    ≡ₚ map (fun r => (r_uid r, r_subject r, r_sender r, r_date r)) t
  /\ exists rows,
       list_emails t
       = map (fun r => (r_uid r, r_subject r, r_sender r, r_date r)) rows
       /\ StronglySorted (fun x y => date_geb x y = true) rows
       /\ forall j k x y, (j < k)%nat -> rows !! j = Some x ->
            rows !! k = Some y -> r_date x = DateNull -> r_date y = DateNull.
Proof.
  unfold list_emails. split; [by rewrite sort_desc_perm|].
  assert (Hs := sort_desc_sorted date_geb date_geb_total date_geb_trans t).
  exists (Py.sort_desc date_geb t). split; [done|]. split; [done|].
  intros j k x y Hjk Hj Hk Hnull.
  assert (Hxy : date_geb x y = true).
  { rewrite <- (take_drop k (Py.sort_desc date_geb t)) in Hs.
    eapply (sorted_app_before date_geb _ _ x y Hs).
    - apply list_elem_of_lookup. exists j. rewrite lookup_take_lt by done. done.
    - apply list_elem_of_lookup. exists 0%nat. rewrite lookup_drop.
      by rewrite Nat.add_0_r. }
  unfold date_geb in Hxy. rewrite Hnull in Hxy. by destruct (r_date y).
Qed.

(** ** imap_client.py and main.py *)

(** X18. [check_uid_validity] reports a change exactly when the file holds a
    token and the mailbox reports another one.  When the status call fails or
    its reply has no token, the file is left as it is; when the reply has a
    token, the file holds that token afterwards, so a second check with the
    same reply reports no change and writes nothing new. *)
Theorem check_uid_validity_settles (reply : status_reply) (f : uidvalidity_file) :
  let changed := fst (check_uid_validity reply f) in
  let f' := snd (check_uid_validity reply f) in
  (changed = true <->
     exists current last,
       reply = StatusUidValidity current /\ f = Holds last /\ current ≠ last)
  /\ match reply with
     | StatusUidValidity current =>
         f' = Holds current /\ check_uid_validity reply f' = (false, f')
     | _ => f' = f
     end.
Proof.
  destruct reply as [| | |current]; simpl.
  1-3: split; [|done]; split; [done|]; by intros (c & l & ? & _).
  destruct f as [| |last]; simpl.
  1-2: split; [split; [done|by intros (c & l & _ & ? & _)]|];
       split; [done|]; by rewrite decide_False by (by intros ?).
  destruct (decide (current ≠ last)) as [Hne|Heq]; simpl.
  - split; [split; [intros _; by exists current, last|done]|].
    split; [done|]. by rewrite decide_False by (by intros ?).
  - apply dec_stable in Heq. subst last. split.
    + split; [done|]. intros (c & l & [= <-] & [= <-] & Hne). done.
    + split; [done|]. by rewrite decide_False by (by intros ?).
Qed.

Section FetchCycle.

Variable V : Type.
Variable encode : list string -> list V.
Variable numeric_literal : string -> option sql_number.

(** X19. After a fetch cycle that fetched at least one email, whatever the
    state before and whatever the UIDVALIDITY check found, every fetched
    email has a row in the Metadata Store and an entry in the Identity Map
    that is saved on disk. *)
Theorem fetch_emails_covers (reply : status_reply) (fetched : list email)
    (w : world V) :
  fetched ≠ [] ->
  let w' := fetch_emails V encode numeric_literal reply fetched w in
  exists u2f f2u,
    faiss_mapping_json (w_files w') = Some (u2f, f2u)
    /\ forall e, e ∈ fetched ->
         uid e ∈ map r_uid (w_table w') /\ is_Some (u2f !! uid e).
Proof.
  intros Hne w'. unfold w', fetch_emails.
  set (w1 := fetch_emails_check V reply w).
  destruct fetched as [|e0 fetched0]; [done|].
  set (fetched := e0 :: fetched0) in *.
  destruct (EmbeddingManager_init V (w_files w1)) as [m0 fs0] eqn:Einit.
  destruct (embed_emails V encode m0 fetched fs0) as [m1 fs1] eqn:Eembed.
  cbn [w_files w_table].
  assert (Htable : forall e, e ∈ fetched ->
            uid e ∈ map r_uid (update_emails numeric_literal fetched (w_table w1))).
  { intros e He. apply update_emails_uids. right.
    apply list_elem_of_fmap. by exists e. }
  assert (Hdom := embed_emails_dom V encode m0 fetched fs0).
  rewrite Eembed in Hdom. cbn [fst] in Hdom.
  assert (Hmapped : forall e, e ∈ fetched -> is_Some (uid_to_faiss_id m1 !! uid e)).
  { intros e He. apply elem_of_dom. rewrite Hdom.
    apply elem_of_union_r, elem_of_list_to_set, list_elem_of_fmap. by exists e. }
  assert (Hfile : faiss_mapping_json fs1
                  = Some (uid_to_faiss_id m1, faiss_id_to_uid m1)).
  { unfold embed_emails in Eembed. fold fetched in Eembed.
    change (match fetched with [] => (m0, fs0) | _ :: _ =>
              match new_emails m0 fetched with
              | [] => (m0, fs0)
              | new => (fold_left (_embed_batch V encode) (batches new) m0,
                        _save_index V (fold_left (_embed_batch V encode)
                                         (batches new) m0) fs0)
              end end = (m1, fs1)) in Eembed.
    unfold fetched in Eembed at 1.
    destruct (new_emails m0 fetched) as [|e new] eqn:Enew.
    - injection Eembed as <- <-.
      assert (Hin : is_Some (uid_to_faiss_id m0 !! uid e0)).
      { destruct (uid_to_faiss_id m0 !! uid e0) as [i|] eqn:E; [eauto|].
        assert (e0 ∈ new_emails m0 fetched)
          by (apply list_elem_of_filter; split; [done|apply list_elem_of_here]).
        rewrite Enew in *. by apply elem_of_nil in H. }
      unfold EmbeddingManager_init, _load_or_create_index in Einit.
      destruct (faiss_index_bin (w_files w1)) as [stored|].
      + injection Einit as <- <-. unfold _load_mapping in *.
        destruct (faiss_mapping_json (w_files w1)) as [[u2f f2u]|]; [done|].
        simpl in Hin. rewrite lookup_empty in Hin. by destruct Hin.
      + injection Einit as <- <-. simpl in Hin.
        rewrite lookup_empty in Hin. by destruct Hin.
    - by injection Eembed as <- <-. }
  exists (uid_to_faiss_id m1), (faiss_id_to_uid m1). split; [done|].
  intros e He. split; [by apply Htable|by apply Hmapped].
Qed.

Lemma embed_emails_all_new (m : EmbeddingManager V) (emails : list email)
    (fs : files V) :
  emails ≠ [] ->
  new_emails m emails = emails ->
  embed_emails V encode m emails fs
  = (fold_left (_embed_batch V encode) (batches emails) m,
     _save_index V (fold_left (_embed_batch V encode) (batches emails) m) fs).
Proof.
  intros Hne Hnew. unfold embed_emails. rewrite Hnew.
  by destruct emails.
Qed.

(** X20. A fetch cycle that finds the generation token changed rebuilds the
    stores from what it fetched: afterwards the new token is persisted, the
    uids in the Metadata Store are exactly the fetched ones, the saved
    Identity Map has exactly the fetched uids as keys, and (the oracle giving
    one vector per text) the saved Vector Index has one vector per fetched
    email. *)
Theorem fetch_emails_rebuilds (current last : Z) (fetched : list email)
    (w : world V) :
  w_uidvalidity w = Holds last ->
  current ≠ last ->
  let w' := fetch_emails V encode numeric_literal (StatusUidValidity current) fetched w in
  w_uidvalidity w' = Holds current
  /\ (forall u, u ∈ map r_uid (w_table w') <-> u ∈ map uid fetched)
  /\ exists stored u2f f2u,
       w_files w' = {| faiss_index_bin := Some stored;
                       faiss_mapping_json := Some (u2f, f2u) |}
       /\ dom u2f = list_to_set (map uid fetched)
       /\ ((forall l, length (encode l) = length l) ->
           length stored = length fetched).
Proof.
  intros Hfile Hne w'.
  assert (Hcheck : fetch_emails_check V (StatusUidValidity current) w
                   = wiped V current).
  { destruct w as [fs f t]. simpl in Hfile. subst f.
    unfold fetch_emails_check, check_uid_validity. simpl.
    rewrite decide_True by done.
    unfold EmbeddingManager_init, _load_or_create_index.
    by destruct (faiss_index_bin fs). }
  unfold w', fetch_emails. rewrite Hcheck.
  destruct fetched as [|e0 fetched0].
  { split; [done|]. split; [done|]. exists [], ∅, ∅. split; [done|].
    split; [|done]. simpl. by rewrite dom_empty_L. }
  set (m0 := {| model_calls := []; index := []; uid_to_faiss_id := ∅;
                faiss_id_to_uid := ∅ |} : EmbeddingManager V).
  set (fs0 := w_files (wiped V current)).
  change (EmbeddingManager_init V fs0) with (m0, fs0).
  assert (Hnew : new_emails m0 (e0 :: fetched0) = e0 :: fetched0).
  { apply filter_all. intros e _. apply lookup_empty. }
  assert (Hdom := embed_emails_new_dom V encode m0 (e0 :: fetched0) fs0).
  assert (Hlen := embed_emails_index_length V encode m0 (e0 :: fetched0) fs0).
  rewrite Hnew in Hdom, Hlen.
  assert (Hrun := embed_emails_all_new m0 (e0 :: fetched0) fs0
                    ltac:(done) Hnew).
  rewrite Hrun in Hdom, Hlen. lazy beta iota zeta. rewrite Hrun.
  cbn [fst snd w_files w_uidvalidity w_table] in *.
  split; [done|]. split.
  - intros u. rewrite update_emails_uids.
    split; [intros [H|H]; [by apply elem_of_nil in H|done]|by right].
  - eexists _, _, _. split; [reflexivity|]. split.
    + rewrite Hdom. unfold m0. cbn [uid_to_faiss_id]. rewrite dom_empty_L.
      apply (left_id_L ∅ (∪)).
    + intros Henc. by rewrite (Hlen Henc).
Qed.

End FetchCycle.

(** ** email_cleaner.py *)

Definition first_is_space (s : string) : bool :=
  match s with
  | String c _ => Py.is_space c
  | EmptyString => false
  end.

Fixpoint last_is_space (s : string) : bool :=
  match s with
  | EmptyString => false
  | String c EmptyString => Py.is_space c
  | String _ s' => last_is_space s'
  end.

Definition first_is_newline (s : string) : bool :=
  match s with
  | String c _ => Ascii.eqb c Py.newline
  | EmptyString => false
  end.

(** Two newlines stand side by side somewhere in [s]. *)
Fixpoint adjacent_newlines (s : string) : bool :=
  match s with
  | EmptyString => false
  | String c s' => (Ascii.eqb c Py.newline && first_is_newline s')
                   || adjacent_newlines s'
  end.

Lemma lstrip_first (s : string) : first_is_space (Py.lstrip s) = false.
Proof.
  induction s as [|c s IH]; simpl; [done|].
  destruct (Py.is_space c) eqn:E; [done|]. simpl. by rewrite E.
Qed.

Lemma lstrip_adjacent (s : string) :
  adjacent_newlines s = false -> adjacent_newlines (Py.lstrip s) = false.
Proof.
  induction s as [|c s IH]; simpl; [done|]. intros Hs.
  apply orb_false_iff in Hs as [Hc Hs].
  destruct (Py.is_space c); [by apply IH|]. simpl. by rewrite Hc, Hs.
Qed.

Lemma rstrip_cons (c : ascii) (s : string) :
  Py.rstrip (String c s)
  = match Py.rstrip s with
    | EmptyString => if Py.is_space c then EmptyString else String c EmptyString
    | String d r => String c (String d r)
    end.
Proof. simpl. by destruct (Py.rstrip s). Qed.

Lemma rstrip_head (s : string) (d : ascii) (r : string) :
  Py.rstrip s = String d r -> exists r', s = String d r'.
Proof.
  destruct s as [|c s]; [done|]. rewrite rstrip_cons.
  destruct (Py.rstrip s); [destruct (Py.is_space c)|]; intros [= <- _]; eauto.
Qed.

Lemma rstrip_last (s : string) : last_is_space (Py.rstrip s) = false.
Proof.
  induction s as [|c s IH]; [done|]. rewrite rstrip_cons.
  destruct (Py.rstrip s) as [|d r].
  - destruct (Py.is_space c) eqn:E; simpl; [done|by rewrite E].
  - exact IH.
Qed.

Lemma rstrip_first (s : string) :
  first_is_space s = false -> first_is_space (Py.rstrip s) = false.
Proof.
  destruct s as [|c s]; [done|]. rewrite rstrip_cons. simpl. intros Hc.
  destruct (Py.rstrip s); [by rewrite Hc|done].
Qed.

Lemma rstrip_adjacent (s : string) :
  adjacent_newlines s = false -> adjacent_newlines (Py.rstrip s) = false.
Proof.
  induction s as [|c s IH]; [done|]. rewrite rstrip_cons. simpl. intros Hs.
  apply orb_false_iff in Hs as [Hc Hs]. specialize (IH Hs).
  destruct (Py.rstrip s) as [|d r] eqn:E.
  - destruct (Py.is_space c); [done|]. simpl. by rewrite andb_false_r.
  - destruct (rstrip_head s d r E) as [r' ->]. simpl in Hc.
    change (adjacent_newlines (String c (String d r)))
      with ((Ascii.eqb c Py.newline && Ascii.eqb d Py.newline)
            || adjacent_newlines (String d r)).
    by rewrite Hc, IH.
Qed.

Lemma squeeze_newlines_adjacent (s : string) :
  forall after_newline,
    adjacent_newlines (Py.squeeze_newlines_from after_newline s) = false
    /\ (after_newline = true ->
        first_is_newline (Py.squeeze_newlines_from after_newline s) = false).
Proof.
  induction s as [|c s IH]; intros b; simpl; [done|].
  destruct (Ascii.eqb c Py.newline) eqn:E.
  - destruct b; [apply IH|]. destruct (IH true) as [H1 H2]. simpl.
    rewrite E, H1, (H2 eq_refl). done.
  - destruct (IH false) as [H1 _]. simpl. rewrite E, H1. done.
Qed.

(** X21. The search text [clean_email_for_search] derives from a subject and
    a body never begins or ends with white space and never has two newlines
    side by side. *)
Theorem clean_email_for_search_shape (subject body : string) :
  let s := clean_email_for_search subject body in
  first_is_space s = false
  /\ last_is_space s = false
  /\ adjacent_newlines s = false.
Proof.
  intros s. unfold s, clean_email_for_search, Py.strip.
  split; [|split].
  - apply rstrip_first, lstrip_first.
  - apply rstrip_last.
  - apply rstrip_adjacent, lstrip_adjacent.
    apply (squeeze_newlines_adjacent _ false).
Qed.

Lemma upper_append (s1 s2 : string) : upper (s1 +:+ s2) = upper s1 +:+ upper s2.
Proof. induction s1 as [|c s1 IH]; simpl; [done|]. by rewrite IH. Qed.

Lemma prefix_append (p s1 s2 : string) :
  String.prefix p s1 = true -> String.prefix p (s1 +:+ s2) = true.
Proof.
  revert s1. induction p as [|a p IH]; intros [|b s1]; simpl; try done.
  - intros _. by destruct s2.
  - destruct (Ascii.ascii_dec a b); [apply IH|done].
Qed.

Lemma contains_append_l (p s1 s2 : string) :
  Py.contains p s1 = true -> Py.contains p (s1 +:+ s2) = true.
Proof.
  induction s1 as [|b s1 IH]; simpl.
  - rewrite orb_false_r. intros Hp. destruct p; [|done].
    by destruct s2.
  - intros Hp. apply orb_true_iff in Hp as [Hp|Hp].
    + apply orb_true_iff. left. by apply (prefix_append p (String b s1) s2).
    + apply orb_true_iff. right. by apply IH.
Qed.

Lemma contains_append_r (p s1 s2 : string) :
  Py.contains p s2 = true -> Py.contains p (s1 +:+ s2) = true.
Proof.
  intros Hp. induction s1 as [|b s1 IH]; simpl; [done|].
  apply orb_true_iff. by right.
Qed.

(** X22. [validate_email_content] accepts an email only if its body, white
    space at both ends apart, has at least 20 characters, and neither the
    subject nor the body holds, in any letter case, one of the phrases
    "CLICK HERE NOW", "MAKE MONEY FAST", "FREE MONEY" and "ACT NOW". *)
Theorem validate_email_content_accepts (subject body : string) :
  validate_email_content subject body = true ->
  (20 <= String.length (Py.strip body))%nat
  /\ forall phrase, phrase ∈ spam_phrases ->
       Py.contains phrase (upper subject) = false
       /\ Py.contains phrase (upper body) = false.
Proof.
  unfold validate_email_content.
  destruct (String.eqb subject "" && String.eqb body ""); [done|].
  destruct (Nat.ltb_spec (String.length (Py.strip body)) 20); [done|].
  destruct (urgent_reply _); [done|]. intros Hv. split; [done|].
  apply negb_true_iff in Hv. intros phrase Hphrase.
  assert (Hno : Py.contains phrase (upper (subject +:+ " " +:+ body)) = false).
  { destruct (Py.contains phrase _) eqn:E; [|done]. exfalso.
    assert (existsb (fun pattern =>
              Py.contains pattern (upper (subject +:+ " " +:+ body)))
              spam_phrases = true); [|congruence].
    apply existsb_exists. exists phrase. split; [|done].
    by apply list_elem_of_In. }
  rewrite !upper_append in Hno. split.
  - destruct (Py.contains phrase (upper subject)) eqn:E; [|done].
    by rewrite (contains_append_l _ _ _ E) in Hno.
  - destruct (Py.contains phrase (upper body)) eqn:E; [|done].
    rewrite (contains_append_r _ (upper subject) _
               (contains_append_r _ (upper " ") _ E)) in Hno. done.
Qed.

(** ** config.py *)

Module ProviderConfig.

Record provider_config := {
  imap_host : string;
  imap_port : Z;
  use_ssl : bool;
  requires_app_password : bool;
  folder_name : string
}.

(** The environment variables [Config] reads; [None] when a variable is not
    set.  [IMAP_PORT] is the integer its text stands for. *)
Record environment := {
  EMAIL_PROVIDER_var : option string;
  IMAP_HOST_var : option string;
  IMAP_PORT_var : option Z;
  IMAP_USE_SSL_var : option string;
  IMAP_FOLDER_var : option string
}.

Definition EMAIL_PROVIDER (env : environment) : string :=
  Py.lower (default "gmail" (EMAIL_PROVIDER_var env)).
Definition IMAP_HOST (env : environment) : string :=
  default "" (IMAP_HOST_var env).
Definition IMAP_PORT (env : environment) : Z :=
  default 993 (IMAP_PORT_var env).

Definition known (host : string) (port : Z) (ssl app_password : bool)
  : provider_config :=
  {| imap_host := host; imap_port := port; use_ssl := ssl;
     requires_app_password := app_password; folder_name := "INBOX" |}.

(** [Config.PROVIDER_CONFIGS], in the order of its keys. *)
Definition PROVIDER_CONFIGS (env : environment) : list (string * provider_config) :=
  [("gmail", known "imap.gmail.com" 993 true true);
   ("outlook", known "outlook.office365.com" 993 true false);
   ("yahoo", known "imap.mail.yahoo.com" 993 true true);
   ("tuta", known "mail.tutanota.com" 993 true false);
   ("protonmail", known "127.0.0.1" 1143 false false);
   ("icloud", known "imap.mail.me.com" 993 true true);
   ("fastmail", known "imap.fastmail.com" 993 true false);
   ("custom",
    {| imap_host := default "localhost" (IMAP_HOST_var env);
       imap_port := default 993 (IMAP_PORT_var env);
       use_ssl := String.eqb (Py.lower (default "true" (IMAP_USE_SSL_var env)))
                             "true";
       requires_app_password := false;
       folder_name := default "INBOX" (IMAP_FOLDER_var env) |})].

Fixpoint lookup_provider (provider : string)
    (configs : list (string * provider_config)) : option provider_config :=
  match configs with
  | [] => None
  | (name, config) :: rest =>
      if String.eqb name provider then Some config
      else lookup_provider provider rest
  end.

(** [Config.get_supported_providers]. *)
Definition get_supported_providers (env : environment) : list string :=
  map fst (PROVIDER_CONFIGS env).

(** [Config.get_provider_config]. *)
Definition get_provider_config (env : environment) : Py.outcome provider_config :=
  match lookup_provider (EMAIL_PROVIDER env) (PROVIDER_CONFIGS env) with
  | None => Py.Raise Py.ValueError
  | Some config =>
      let config :=
        if negb (String.eqb (IMAP_HOST env) "")
        then {| imap_host := IMAP_HOST env; imap_port := imap_port config;
                use_ssl := use_ssl config;
                requires_app_password := requires_app_password config;
                folder_name := folder_name config |}
        else config in
      let config :=
        if negb (IMAP_PORT env =? 993)
        then {| imap_host := imap_host config; imap_port := IMAP_PORT env;
                use_ssl := use_ssl config;
                requires_app_password := requires_app_password config;
                folder_name := folder_name config |}
        else config in
      Py.Ok config
  end.

(** The same environment with other values for [IMAP_USE_SSL] and
    [IMAP_FOLDER]. *)
Definition with_ssl_and_folder (ssl folder : option string) (env : environment)
  : environment :=
  {| EMAIL_PROVIDER_var := EMAIL_PROVIDER_var env;
     IMAP_HOST_var := IMAP_HOST_var env;
     IMAP_PORT_var := IMAP_PORT_var env;
     IMAP_USE_SSL_var := ssl;
     IMAP_FOLDER_var := folder |}.

End ProviderConfig.

Import ProviderConfig.

Lemma lookup_provider_supported (provider : string) (env : environment) :
  is_Some (lookup_provider provider (PROVIDER_CONFIGS env))
  <-> provider ∈ get_supported_providers env.
Proof.
  unfold get_supported_providers.
  induction (PROVIDER_CONFIGS env) as [|[name config] rest IH]; simpl.
  - split; [by intros [? ?]|]. intros H. by apply elem_of_nil in H.
  - rewrite elem_of_cons. destruct (String.eqb name provider) eqn:E.
    + apply String.eqb_eq in E. split; [by left|eauto].
    + apply String.eqb_neq in E. rewrite IH. split; [by right|].
      intros [?|?]; [congruence|done].
Qed.

(** X23. [get_provider_config] succeeds exactly for the eight supported
    providers and raises [ValueError] for any other.  [IMAP_USE_SSL] and
    [IMAP_FOLDER] are read for the provider "custom" only: for any other
    provider the configuration is the same whatever their values.  And the
    port of the configuration is 993 only if the provider's own port is 993:
    [IMAP_PORT=993] overrides nothing. *)
Theorem get_provider_config_overrides (env : environment) :
  (match get_provider_config env with
   | Py.Ok _ => EMAIL_PROVIDER env ∈ get_supported_providers env
   | Py.Raise e => e = Py.ValueError
                   /\ EMAIL_PROVIDER env ∉ get_supported_providers env
   end)
  /\ (EMAIL_PROVIDER env ≠ "custom" ->
      forall ssl folder,
        get_provider_config (with_ssl_and_folder ssl folder env)
        = get_provider_config env)
  /\ (forall config base,
        get_provider_config env = Py.Ok config ->
        lookup_provider (EMAIL_PROVIDER env) (PROVIDER_CONFIGS env) = Some base ->
        imap_port config = 993 -> imap_port base = 993).
Proof.
  split; [|split].
  - unfold get_provider_config.
    destruct (lookup_provider _ _) as [config|] eqn:E.
    + apply lookup_provider_supported. by rewrite E.
    + split; [done|]. intros Hin.
      apply lookup_provider_supported in Hin. rewrite E in Hin. by destruct Hin.
  - intros Hne ssl folder. unfold get_provider_config.
    change (EMAIL_PROVIDER (with_ssl_and_folder ssl folder env))
      with (EMAIL_PROVIDER env).
    change (IMAP_HOST (with_ssl_and_folder ssl folder env)) with (IMAP_HOST env).
    change (IMAP_PORT (with_ssl_and_folder ssl folder env)) with (IMAP_PORT env).
    assert (Hsame : forall provider, provider ≠ "custom" ->
              lookup_provider provider
                (PROVIDER_CONFIGS (with_ssl_and_folder ssl folder env))
              = lookup_provider provider (PROVIDER_CONFIGS env)).
    { intros provider Hprovider. unfold PROVIDER_CONFIGS.
      cbn [lookup_provider].
      do 7 (destruct (String.eqb _ provider); [reflexivity|]).
      destruct (String.eqb_spec "custom" provider) as [Heq|_];
        [|reflexivity].
      exfalso. apply Hprovider. symmetry. exact Heq. }
    rewrite (Hsame _ Hne). reflexivity.
  - intros config base. unfold get_provider_config. intros Hcfg Hbase Hport.
    rewrite Hbase in Hcfg. injection Hcfg as <-.
    destruct (Z.eqb_spec (IMAP_PORT env) 993) as [Heq|Hneq]; simpl in Hport.
    + by destruct (negb (String.eqb (IMAP_HOST env) "")).
    + done.
Qed.

(** ** Runs of the further properties *)

(** X2 on the three records of the scenario, indexed into a new manager. *)
Lemma embed_emails_repeated_uid_witness :
  let m := fst (EmbeddingManager_init Fake.V (no_files Fake.V)) in
  let m' := fst (embed_emails Fake.V Fake.encode m three (no_files Fake.V)) in
  length (index m') = (length (index m) + length (new_emails m three))%nat
  /\ (size (uid_to_faiss_id m') = length (index m')
      <-> NoDup (map uid (new_emails m three))).
Proof.
  apply (embed_emails_repeated_uid Fake.V Fake.encode
           (fst (EmbeddingManager_init Fake.V (no_files Fake.V))) three
           (no_files Fake.V)).
  - exact Fake.encode_length.
  - reflexivity.
Defined.

(** X7 on a search over the three records with [limit = 2]. *)
Lemma search_results_ranked_witness :
  exists results,
    snd (Fake.search (Fake.manager_of three) (Fake.update_emails three [])
           "test" None None None None 2) = Py.Ok results
    /\ StronglySorted
         (fun x y => (similarity_score y <= similarity_score x)%Q) results
    /\ Z.of_nat (length results) <= 2.
Proof.
  destruct (snd (Fake.search (Fake.manager_of three) (Fake.update_emails three [])
                   "test" None None None None 2)) as [results|e] eqn:E;
    [|vm_compute in E; discriminate E].
  exists results. split; [reflexivity|].
  destruct (search_results_ranked Fake.V Fake.encode Fake.index_search
              Fake.re_valid Fake.re_search Fake.fromisoformat Fake.strptime
              (Fake.manager_of three) (Fake.update_emails three [])
              "test" None None None None 2 results E) as (Hsorted & Hlen & _).
  split; [exact Hsorted|]. apply Hlen. lia.
Defined.

(** X8 on a search over the three records with a lower date bound, a sender
    and a pattern. *)
Lemma search_filters_conjunctive_witness :
  exists results,
    snd (Fake.search (Fake.manager_of three) (Fake.update_emails three [])
           "test" (Some "2025-07-14") None (Some "SENDER") (Some "test") 3)
    = Py.Ok results
    /\ forall r, r ∈ results ->
         r ∈ candidates Fake.V Fake.encode Fake.index_search
               (Fake.manager_of three) (Fake.update_emails three []) "test" 3
         /\ passes Fake.re_search Fake.fromisoformat Fake.strptime
               (Some "2025-07-14") None (Some "SENDER") (Some "test") r.
Proof.
  destruct (snd (Fake.search (Fake.manager_of three) (Fake.update_emails three [])
                   "test" (Some "2025-07-14") None (Some "SENDER")
                   (Some "test") 3)) as [results|e] eqn:E;
    [|vm_compute in E; discriminate E].
  exists results. split; [reflexivity|].
  exact (proj1 (search_filters_conjunctive Fake.V Fake.encode Fake.index_search
                  Fake.re_valid Fake.re_search Fake.fromisoformat Fake.strptime
                  (Fake.manager_of three) (Fake.update_emails three [])
                  "test" (Some "2025-07-14") None (Some "SENDER") (Some "test")
                  3 results E)).
Defined.





(** X16 on the table of the two meetings, updated with a record for "old"
    and a record for a new uid. *)
Lemma update_emails_upsert_witness :
  let emails := [mail "old" "moved" "new agenda" "2025-03-01";
                 mail "4" "hello" "again" "2025-03-02"] in
  let t' := Fake.update_emails emails two_meetings in
  NoDup (map r_uid t')
  /\ forall x, x ∈ t' <->
       (x ∈ two_meetings /\ r_uid x ∉ map uid emails)
       \/ exists (j : nat) e,
            emails !! j = Some e /\ x = row_of_email Fake.numeric_literal e
            /\ forall (j' : nat) e', (j < j')%nat -> emails !! j' = Some e' ->
                 uid e' ≠ uid e.
Proof.
  apply (update_emails_upsert Fake.numeric_literal
           [mail "old" "moved" "new agenda" "2025-03-01";
            mail "4" "hello" "again" "2025-03-02"] two_meetings).
  by_computation.
Defined.

(** A world that holds the three records under the token 7. *)
Definition three_world : world Fake.V :=
  {| w_files := snd (index_all Fake.V Fake.encode [three]
                       (EmbeddingManager_init Fake.V (no_files Fake.V)));
     w_uidvalidity := Holds 7;
     w_table := Fake.update_emails three [] |}.

(** X19 on a fetch of the invoice into the world of the three records. *)
Lemma fetch_emails_covers_witness :
  let w' := fetch_emails Fake.V Fake.encode Fake.numeric_literal
              (StatusUidValidity 7) [invoice]
              three_world in
  exists u2f f2u,
    faiss_mapping_json (w_files w') = Some (u2f, f2u)
    /\ forall e, e ∈ [invoice] ->
         uid e ∈ map r_uid (w_table w') /\ is_Some (u2f !! uid e).
Proof.
  apply (fetch_emails_covers Fake.V Fake.encode Fake.numeric_literal
           (StatusUidValidity 7) [invoice]
           three_world).
  intros H. discriminate H.
Defined.

(** X20 on the same fetch when the mailbox reports the token 8. *)
Lemma fetch_emails_rebuilds_witness :
  let w' := fetch_emails Fake.V Fake.encode Fake.numeric_literal
              (StatusUidValidity 8) [invoice]
              three_world in
  w_uidvalidity w' = Holds 8
  /\ (forall u, u ∈ map r_uid (w_table w') <-> u ∈ map uid [invoice])
  /\ exists stored u2f f2u,
       w_files w' = {| faiss_index_bin := Some stored;
                       faiss_mapping_json := Some (u2f, f2u) |}
       /\ dom u2f = list_to_set (map uid [invoice])
       /\ ((forall l, length (Fake.encode l) = length l) ->
           length stored = length [invoice]).
Proof.
  apply (fetch_emails_rebuilds Fake.V Fake.encode Fake.numeric_literal 8 7 [invoice] three_world).
  - reflexivity.
  - lia.
Defined.

(** X22 on an ordinary email. *)
Lemma validate_email_content_accepts_witness :
  (20 <= String.length (Py.strip "Let us meet at noon tomorrow."))%nat
  /\ forall phrase, phrase ∈ spam_phrases ->
       Py.contains phrase (upper "Meeting") = false
       /\ Py.contains phrase (upper "Let us meet at noon tomorrow.") = false.
Proof.
  apply (validate_email_content_accepts "Meeting"
           "Let us meet at noon tomorrow.").
  reflexivity.
Defined.
